(** * Beanland-Atlas: the ellipse-fitting stage (commensuration_ellipses.cpp)

    A shallow embedding of the functions of [namespace ba] that build the
    annular mask, package pixels for the MATLAB fitting and clustering
    routines, filter the mask around the first fit and convert a conic into
    an ellipse, together with the properties the design document states
    about them.  The second half of the file adds [rotate_point2D], the
    rectangles of [get_mask_values], [scharr_amp], [dists_from_ellipse] and
    two stages of [inv_sqr_inciding_sign], with properties read off the
    code.

    Modelling conventions.
    - [double] and [float] values are real numbers ([R]); rounding, infinities
      and NaN are outside the model.  [std::atan], [std::cos], [std::sin]
      and [std::sqrt] are the functions of the same name of the Reals
      library, and the constant [PI] is [PI].
    - [int] values are integers ([Z]) or, where they only index a vector,
      natural numbers; arithmetic overflow is outside the model.
    - A [std::vector] is a list.  [operator[]] outside the vector is
      undefined behaviour in C++; the model stops there with [OutOfRange],
      keeping the state reached so far.
    - The contents of a [cv::Mat] are a list of rows.  Where sharing matters
      (a matrix header passed by value) the header and the pixel buffers are
      kept apart, the buffers living in a store.
    - The MATLAB engine is an unknown function from a request to a reply or
      an exception; every request is logged in the state.  [cv::Sobel] is
      an unknown function from an image to a filtrate.
    - The rounds of a [#pragma omp parallel for] loop are run in index order.
      Where the loop writes through a pointer that is declared before it,
      and so is shared between the threads ([create_annular_mask],
      [scharr_amp]), the row the pointer designates at each use is a
      parameter of the model; theorems on what such a loop computes assume
      that it is the row of the round that uses it.
    - [float dist] of [create_annular_mask] is the distance converted to
      [float] by an unknown function, of which the theorems assume that it
      is monotone and exact on the multiples of [2^-12] up to 4096.
    - A division by zero and the square root of a negative number give an
      infinity or a NaN in the program; a theorem that reads such a value
      states hypotheses that exclude it. *)

From Stdlib Require Import Reals Lra Lia ZArith List String.
From stdpp Require Import gmap sorting.
Import ListNotations.

(** * Checked execution: state, faults and exceptions *)

Inductive result (A : Type) : Type :=
| Ok (x : A)
| OutOfRange (i : nat)
| Raised (msg : string).
Arguments Ok {A} x.
Arguments OutOfRange {A} i.
Arguments Raised {A} msg.

Definition exec (S A : Type) : Type := S -> result A * S.

Definition exec_ret {S A : Type} (x : A) : exec S A := fun s => (Ok x, s).

Definition exec_bind {S A B : Type} (k : A -> exec S B) (m : exec S A) : exec S B :=
  fun s =>
    match m s with
    | (Ok x, s') => k x s'
    | (OutOfRange i, s') => (OutOfRange i, s')
    | (Raised msg, s') => (Raised msg, s')
    end.

#[global] Instance exec_mret (S : Type) : MRet (exec S) := @exec_ret S.
#[global] Instance exec_mbind (S : Type) : MBind (exec S) := @exec_bind S.

Definition get {S : Type} : exec S S := fun s => (Ok s, s).
Definition modify {S : Type} (f : S -> S) : exec S unit := fun s => (Ok tt, f s).
Definition fault {S A : Type} (i : nat) : exec S A := fun s => (OutOfRange i, s).
Definition raise {S A : Type} (msg : string) : exec S A := fun s => (Raised msg, s).

(** [v[i]] as an rvalue. *)
Definition vec_get {S A : Type} (v : list A) (i : nat) : exec S A :=
  match v !! i with
  | Some x => mret x
  | None => fault i
  end.

(** [v[i] = x]: the updated vector, or a fault outside it. *)
Definition vec_set {S A : Type} (v : list A) (i : nat) (x : A) : exec S (list A) :=
  if decide (i < length v)%nat then mret (<[i := x]> v) else fault i.

(** [for (int i = 0; i < n; i++) body(i)]. *)
Fixpoint for_each {S A : Type} (l : list A) (body : A -> exec S unit) : exec S unit :=
  match l with
  | [] => mret tt
  | i :: l' => body i;; for_each l' body
  end.

#[global] Instance Rle_decision (x y : R) : Decision (x <= y)%R := Rle_dec x y.
#[global] Instance Rge_decision (x y : R) : Decision (x >= y)%R := Rge_dec x y.
#[global] Instance Rlt_decision (x y : R) : Decision (x < y)%R := Rlt_dec x y.
#[global] Instance Rgt_decision (x y : R) : Decision (x > y)%R := Rgt_dec x y.
#[global] Instance nat_gt_decision (x y : nat) : Decision (x > y)%nat := decide (y < x)%nat.
#[global] Instance R_eq_decision : EqDecision R := Req_dec_T.

Module ba.

(** * Conic to ellipse *)

Section Conic.

Open Scope R_scope.

Record Point2d : Type := mkPoint2d { px : R; py : R }.

Definition padd (p q : Point2d) : Point2d := mkPoint2d (px p + px q) (py p + py q).

(** The fields of [struct ellipse] that this file touches. *)
Record ellipse : Type := mkEllipse {
  is_ellipse : bool;
  angle : R;
  center : Point2d;
  a : R;
  b : R
}.

(** The locals of [ellipse_points_from_conic] that are written in place. *)
Record frame : Type := mkFrame {
  el : ellipse;
  extrema : list Point2d
}.

Definition set_is_ellipse (v : bool) : exec frame unit :=
  modify (fun fr => mkFrame (mkEllipse v (angle (el fr)) (center (el fr)) (a (el fr)) (b (el fr)))
                            (extrema fr)).
Definition set_angle (v : R) : exec frame unit :=
  modify (fun fr => mkFrame (mkEllipse (is_ellipse (el fr)) v (center (el fr)) (a (el fr)) (b (el fr)))
                            (extrema fr)).
Definition set_center (v : Point2d) : exec frame unit :=
  modify (fun fr => mkFrame (mkEllipse (is_ellipse (el fr)) (angle (el fr)) v (a (el fr)) (b (el fr)))
                            (extrema fr)).
Definition set_a (v : R) : exec frame unit :=
  modify (fun fr => mkFrame (mkEllipse (is_ellipse (el fr)) (angle (el fr)) (center (el fr)) v (b (el fr)))
                            (extrema fr)).
Definition set_b (v : R) : exec frame unit :=
  modify (fun fr => mkFrame (mkEllipse (is_ellipse (el fr)) (angle (el fr)) (center (el fr)) (a (el fr)) v)
                            (extrema fr)).

(** [std::vector<cv::Point2d> extrema(n)]. *)
Definition new_extrema (n : nat) : exec frame unit :=
  modify (fun fr => mkFrame (el fr) (replicate n (mkPoint2d 0 0))).

(** [extrema[i] = p]. *)
Definition extrema_set (i : nat) (p : Point2d) : exec frame unit :=
  fr ← get;
  v ← vec_set (extrema fr) i p;
  modify (fun fr => mkFrame (el fr) v).

Definition return_el : exec frame ellipse := fr ← get; mret (el fr).

(** [ellipse ellipse_points_from_conic(std::vector<double> &conic)].  The
    frame the function starts from holds the default-initialised [el],
    whose fields are indeterminate. *)
Definition ellipse_points_from_conic (conic : list R) : exec frame ellipse :=
  c0 ← vec_get conic 0;
  c2 ← vec_get conic 2;
  c1 ← vec_get conic 1;
  if decide (4.0 * c0 * c2 - c1 * c1 > 0) then
    set_is_ellipse false;;
    return_el
  else
    set_is_ellipse true;;
    let theta_times_2 := atan (c1 / (c0 - c2)) in
    let theta_times_2 :=
      if decide (theta_times_2 < 0) then theta_times_2 + 0.5 * PI else theta_times_2 in
    set_angle (0.5 * theta_times_2);;
    fr ← get;
    let cos_theta := cos (angle (el fr)) in
    let sin_theta := sin (angle (el fr)) in
    let A := c0 * cos_theta * cos_theta + c1 * cos_theta * sin_theta
             + c2 * sin_theta * sin_theta in
    let C := c0 * sin_theta * sin_theta - c1 * cos_theta * sin_theta
             + c2 * cos_theta * cos_theta in
    c3 ← vec_get conic 3;
    c4 ← vec_get conic 4;
    let D := c3 * cos_theta + c4 * sin_theta in
    let E := c4 * cos_theta - c3 * sin_theta in
    c5 ← vec_get conic 5;
    let F := c5 in
    let x := -0.5 * D / A in
    let y := -0.5 * E / C in
    set_center (mkPoint2d (x * cos_theta - y * sin_theta) (x * sin_theta + y * cos_theta));;
    let num := -4.0 * F * A * C + C * D * D + A * E * E in
    set_a (sqrt (num / (4.0 * A * C * C)));;
    set_b (sqrt (num / (4.0 * A * A * C)));;
    fr ← get;
    let el := el fr in
    new_extrema 4;;
    extrema_set 1 (padd (center el) (mkPoint2d (- b el * sin_theta) (b el * cos_theta)));;
    extrema_set 2 (padd (center el) (mkPoint2d (a el * cos_theta) (a el * sin_theta)));;
    extrema_set 3 (padd (center el) (mkPoint2d (b el * sin_theta) (- b el * cos_theta)));;
    extrema_set 4 (padd (center el) (mkPoint2d (- a el * cos_theta) (- a el * sin_theta)));;
    return_el.

(** A frame to start a call from: [el] with all fields zero. *)
Definition frame0 : frame := mkFrame (mkEllipse false 0 (mkPoint2d 0 0) 0 0) [].

(** The conic [A x^2 + B x y + C y^2 + D x + E y + F = 0] (the form the
    comment on [ellipse_points_from_conic] gives) of the ellipse with centre
    [(cx, cy)], semi-axes [sa] along the direction at angle [theta] and [sb]
    across it.  This is the generator of the round-trip law of the design
    document; the source has no such function. *)
Definition conic_of_ellipse (cx cy sa sb theta : R) : list R :=
  let c := cos theta in
  let s := sin theta in
  let A := c * c / (sa * sa) + s * s / (sb * sb) in
  let B := 2 * c * s * (1 / (sa * sa) - 1 / (sb * sb)) in
  let C := s * s / (sa * sa) + c * c / (sb * sb) in
  [ A; B; C;
    - 2 * A * cx - B * cy;
    - B * cx - 2 * C * cy;
    A * cx * cx + B * cx * cy + C * cy * cy - 1 ].

End Conic.

(** * Matrices *)

(** A [cv::Mat] is a header that points to a reference-counted pixel buffer;
    copying the header (passing a [cv::Mat] by value) shares the buffer. *)
Record Mat : Type := mkMat {
  data : option positive;
  rows : nat;
  cols : nat
}.

(** [cv::Mat()] *)
Definition Mat_empty : Mat := mkMat None 0 0.

(** The pixel buffers, by address.  All matrices here hold one channel. *)
Abbreviation store := (gmap positive (list (list Z))).

(** [cv::Mat::zeros(cv::Size(c, r), CV_8UC1)]: a header on a fresh buffer.
    OpenCV refuses a negative dimension with an exception. *)
Definition Mat_zeros (c r : Z) : exec store Mat :=
  if decide (0 <= c /\ 0 <= r)%Z then
    fun sigma =>
      let l := fresh (dom sigma) in
      (Ok (mkMat (Some l) (Z.to_nat r) (Z.to_nat c)),
       <[l := replicate (Z.to_nat r) (replicate (Z.to_nat c) 0%Z)]> sigma)
  else raise "cv::Mat::zeros: negative size".

(** [m = cv::Mat::zeros(cv::Size(c, r), CV_8UC1)] for a header [m].  The
    assignment ends in [cv::Mat::create], which keeps the buffer of a header
    that already has [r] rows and [c] columns of this type; the pixels are
    then set to 0.  Any other header lets go of its buffer, which stays with
    the other headers on it, and gets a fresh one. *)
Definition Mat_assign_zeros (m : Mat) (c r : Z) : exec store Mat :=
  if decide (0 <= c /\ 0 <= r)%Z then
    match data m with
    | Some l =>
        if decide (rows m = Z.to_nat r /\ cols m = Z.to_nat c)
        then fun sigma =>
               (Ok m, <[l := replicate (Z.to_nat r) (replicate (Z.to_nat c) 0%Z)]> sigma)
        else Mat_zeros c r
    | None => Mat_zeros c r
    end
  else raise "cv::Mat::zeros: negative size".

(** [m.ptr<byte>(i)[j] = v] *)
Definition Mat_write (m : Mat) (i j : nat) (v : Z) : exec store unit :=
  fun sigma =>
    match data m with
    | None => (OutOfRange i, sigma)
    | Some l =>
        match sigma !! l with
        | None => (OutOfRange i, sigma)
        | Some px =>
            match px !! i with
            | None => (OutOfRange i, sigma)
            | Some row =>
                if decide (j < length row)%nat
                then (Ok tt, <[l := <[i := <[j := v]> row]> px]> sigma)
                else (OutOfRange j, sigma)
            end
        end
    end.

(** The pixels a header shows in a store; an empty header shows none. *)
Definition Mat_pixels (sigma : store) (m : Mat) : list (list Z) :=
  match data m with
  | None => []
  | Some l => default [] (sigma !! l)
  end.

(** [cv::countNonZero] on the contents of a matrix, and on one row. *)
Definition countNonZero (px : list (list Z)) : nat :=
  length (filter (fun v => v <> 0%Z) (concat px)).
Definition countNonZero_row (row : list Z) : nat :=
  length (filter (fun v => v <> 0%Z) row).

(** * The annular mask *)

Section AnnularMask.

Open Scope R_scope.

(** [std::sqrt((i-origin.y)*(i-origin.y) + (j-origin.x)*(j-origin.x))] with
    [origin = cv::Point((int)(size/2), (int)(size/2))], before it is stored
    in [float dist]. *)
Definition annulus_dist (size : Z) (i j : nat) : R :=
  let origin_x := Z.quot size 2 in
  let origin_y := Z.quot size 2 in
  let i' := Z.of_nat i in
  let j' := Z.of_nat j in
  sqrt (IZR ((i' - origin_y) * (i' - origin_y) + (j' - origin_x) * (j' - origin_x))).

(** [dist >= inner_rad && dist <= outer_rad] on the distance itself, not
    converted to [float]. *)
Definition annulus_test (size inner_rad outer_rad : Z) (i j : nat) : bool :=
  let dist := annulus_dist size i j in
  bool_decide (dist >= IZR inner_rad) && bool_decide (dist <= IZR outer_rad).

(** The pixels of the mask: [val] where the test holds, 0 elsewhere. *)
Definition annulus_pixels (size inner_rad outer_rad : Z) (val : Z) : list (list Z) :=
  map (fun i =>
         map (fun j => if annulus_test size inner_rad outer_rad i j then val else 0%Z)
             (seq 0 (Z.to_nat size)))
      (seq 0 (Z.to_nat size)).

(** The test on integers: for a non-negative integer [d2],
    [sqrt d2 >= inner_rad] iff [inner_rad <= 0] or [inner_rad^2 <= d2], and
    [sqrt d2 <= outer_rad] iff [0 <= outer_rad] and [d2 <= outer_rad^2]. *)
Definition annulus_test_Z (size inner_rad outer_rad : Z) (i j : nat) : bool :=
  let o := Z.quot size 2 in
  let d2 := ((Z.of_nat i - o) * (Z.of_nat i - o) + (Z.of_nat j - o) * (Z.of_nat j - o))%Z in
  ((inner_rad <=? 0)%Z || (inner_rad * inner_rad <=? d2)%Z)
  && ((0 <=? outer_rad)%Z && (d2 <=? outer_rad * outer_rad)%Z).

End AnnularMask.

(** * The MATLAB engine *)

(** What [matlab::data::ArrayFactory] builds for a call. *)
Inductive marg : Type :=
| MArray (dims : list nat) (v : list R)
| MDouble (x : R)
| MInt32 (n : Z)
| MChars (s : string).

(** A call [feval(fn, nargout, args)]. *)
Record call : Type := mkCall {
  fn : string;
  nargout : nat;
  args : list marg
}.

(** The state of a function that talks to the engine: its own variables,
    and the calls made so far. *)
Record mstate (V : Type) : Type := mkMstate {
  vars : V;
  calls : list call
}.
Arguments mkMstate {V} vars calls.
Arguments vars {V} m.
Arguments calls {V} m.

Definition get_vars {V : Type} : exec (mstate V) V := fun s => (Ok (vars s), s).
Definition modify_vars {V : Type} (f : V -> V) : exec (mstate V) unit :=
  fun s => (Ok tt, mkMstate (f (vars s)) (calls s)).

(** [(int)x] for a double [x]: truncation towards zero. *)
Definition double_to_int (x : R) : Z :=
  if decide (0 <= x)%R then Int_part x else (- Int_part (- x))%Z.

(** [m.ptr<T>(i)[j]] on the contents of a matrix. *)
Definition px_get {S A : Type} (px : list (list A)) (i j : nat) : exec S A :=
  row ← vec_get px i;
  vec_get row j.

(** [mask.rows] and [mask.cols] of a matrix given by its contents. *)
Definition px_rows {A : Type} (px : list (list A)) : nat := length px.
Definition px_cols {A : Type} (px : list (list A)) : nat := length (default [] (head px)).

(** The contents of a [cv::Mat]: all rows have [cols] pixels. *)
Definition rectangular {A : Type} (px : list (list A)) : Prop :=
  forall row, row ∈ px -> length row = px_cols px.

Section Engine.

Open Scope R_scope.

(** The engine: the outputs of a call as flat arrays of doubles, or the
    message of the exception it throws. *)
Variable feval : call -> string + list (list R).

Definition engine_feval {V : Type} (c : call) : exec (mstate V) (list (list R)) :=
  fun s =>
    let s' := mkMstate (vars s) (calls s ++ [c]) in
    match feval c with
    | inl msg => (Raised msg, s')
    | inr outs => (Ok outs, s')
    end.

(** [a[i]] on a [matlab::data::Array]: the engine's API throws outside it. *)
Definition array_get {S : Type} (arr : list R) (i : nat) : exec S R :=
  match arr !! i with
  | Some v => mret v
  | None => raise "matlab::data::InvalidArrayIndexException"
  end.

(** ** hyper_renorm_ellipse *)

Record hre_vars : Type := mkHre {
  hre_x : list R;
  hre_y : list R;
  hre_w : list R;
  hre_k : nat;
  ellipse_param : list R
}.

Definition hre_init : hre_vars := mkHre [] [] [] 0 [].

(** [x[k] = (double)j; y[k] = (double)i; w[k] = (double)q[j]; k++;] *)
Definition hre_pack (weights : list (list R)) (i j : nat) : exec (mstate hre_vars) unit :=
  v ← get_vars;
  x ← vec_set (hre_x v) (hre_k v) (INR j);
  y ← vec_set (hre_y v) (hre_k v) (INR i);
  q ← px_get weights i j;
  w ← vec_set (hre_w v) (hre_k v) q;
  modify_vars (fun v => mkHre x y w (S (hre_k v)) (ellipse_param v)).

(** [ellipse_param[k] = val; k++;] *)
Definition hre_store (val : R) : exec (mstate hre_vars) unit :=
  v ← get_vars;
  e ← vec_set (ellipse_param v) (hre_k v) val;
  modify_vars (fun v => mkHre (hre_x v) (hre_y v) (hre_w v) (S (hre_k v)) e).

(** The arguments packaged for the MATLAB function [hyper_renorm_ellipse]. *)
Definition hre_call (nnz_px : nat) (x y w : list R) (f0 : R) (max_iter : Z) (thresh : R)
  : call :=
  mkCall "hyper_renorm_ellipse" 1
    [ MArray [nnz_px; 1%nat] x;
      MArray [nnz_px; 1%nat] y;
      MArray [nnz_px; 1%nat] w;
      MDouble f0;
      MInt32 max_iter;
      MDouble thresh ].

(** [std::vector<double> hyper_renorm_ellipse(cv::Mat &mask, cv::Mat
    weights, const double f0, const double thresh, const int max_iter)] *)
Definition hyper_renorm_ellipse (mask : list (list Z)) (weights : list (list R))
  (f0 thresh : R) (max_iter : Z) : exec (mstate hre_vars) (list R) :=
  let nnz_px := countNonZero mask in
  modify_vars (fun v => mkHre (replicate nnz_px 0) (replicate nnz_px 0) (replicate nnz_px 0)
                              0 (ellipse_param v));;
  for_each (seq 0 (px_rows mask)) (fun i =>
    for_each (seq 0 (px_cols mask)) (fun j =>
      p ← px_get mask i j;
      if decide (p <> 0%Z) then hre_pack weights i j else mret tt));;
  v ← get_vars;
  outs ← engine_feval (hre_call nnz_px (hre_x v) (hre_y v) (hre_w v) f0 max_iter thresh);
  let el := default [] (head outs) in
  modify_vars (fun v => mkHre (hre_x v) (hre_y v) (hre_w v) 0 (replicate 5 0));;
  for_each el hre_store;;
  v ← get_vars;
  mret (ellipse_param v).

(** ** weighted_kmeans *)

(** The output parameters [centers] and [labels] and the local [data1D]. *)
Record wk_vars : Type := mkWk {
  centers : list (list R);
  labels : list Z;
  data1D : list R
}.

Definition set_data1D (d : list R) : exec (mstate wk_vars) unit :=
  modify_vars (fun v => mkWk (centers v) (labels v) d).
Definition set_labels (l : list Z) : exec (mstate wk_vars) unit :=
  modify_vars (fun v => mkWk (centers v) l (data1D v)).
Definition set_centers (c : list (list R)) : exec (mstate wk_vars) unit :=
  modify_vars (fun v => mkWk c (labels v) (data1D v)).

(** [for (int j = 0; data[0].size(); j++) { data1D[k] = data[i][j]; }] with
    [data[0].size()] non-zero and [k] the counter declared (as 0) in the
    enclosing [for], which nothing increments.  The condition never turns
    false, so the loop goes on until [data[i][j]] leaves the row: [pending]
    is the part of the row from index [j] on. *)
Fixpoint wk_copy_row (pending : list R) (j : nat) : exec (mstate wk_vars) unit :=
  match pending with
  | [] => fault j
  | dij :: pending' =>
      v ← get_vars;
      d ← vec_set (data1D v) 0 dij;
      set_data1D d;;
      wk_copy_row pending' (S j)
  end.

(** [labels[i] = cluster_info[0][i];] *)
Definition wk_label (cluster_info : list (list R)) (i : nat) : exec (mstate wk_vars) unit :=
  ci0 ← vec_get cluster_info 0;
  c ← array_get ci0 i;
  v ← get_vars;
  l ← vec_set (labels v) i (double_to_int c);
  set_labels l.

(** [centers[i][j] = cluster_info[1][i*k + j];] *)
Definition wk_center (cluster_info : list (list R)) (k i j : nat) : exec (mstate wk_vars) unit :=
  ci1 ← vec_get cluster_info 1;
  c ← array_get ci1 (i * k + j);
  v ← get_vars;
  row ← vec_get (centers v) i;
  row' ← vec_set row j c;
  set_centers (<[i := row']> (centers v)).

(** The arguments packaged for the MATLAB function [fkmeans]. *)
Definition fkmeans_call (n_samples n_variables : nat) (data1D : list R) (k : Z)
  (weights : list R) : call :=
  mkCall "fkmeans" 3
    [ MArray [n_samples; n_variables] data1D;
      MInt32 k;
      MChars "weight";
      MArray [n_samples; 1%nat] weights ].

(** [void weighted_kmeans(std::vector<std::vector<double>> &data,
    std::vector<double> &weights, const int k,
    std::vector<std::vector<double>> &centers, std::vector<int> &labels)] *)
Definition weighted_kmeans (data : list (list R)) (weights : list R) (k : Z)
  : exec (mstate wk_vars) unit :=
  (if decide (length data > 1)%nat then
     data0 ← vec_get data 0;
     set_data1D (replicate (length data * length data0) 0);;
     for_each (seq 0 (length data)) (fun i =>
       data0 ← vec_get data 0;
       if decide (length data0 <> 0%nat) then
         row ← vec_get data i;
         wk_copy_row row 0
       else mret tt)
   else
     data0 ← vec_get data 0;
     set_data1D data0);;
  v ← get_vars;
  data0 ← vec_get data 0;
  cluster_info ← engine_feval (fkmeans_call (length data0) (length data) (data1D v) k weights);
  set_labels (replicate (length data) 0%Z);;
  for_each (seq 0 (length data)) (wk_label cluster_info);;
  (if decide (k < 0)%Z then raise "std::length_error" else mret tt);;
  set_centers (replicate (Z.to_nat k) []);;
  for_each (seq 0 (Z.to_nat k)) (fun i =>
    data0 ← vec_get data 0;
    for_each (seq 0 (length data0)) (fun j =>
      wk_center cluster_info (Z.to_nat k) i j)).

End Engine.

(** * The mask of the second fit *)

Section RefinedMask.

Open Scope R_scope.

(** The locals [refined_mask] and [k] of the loop body of [get_ellipses]. *)
Record rm_vars : Type := mkRm {
  refined_mask : list (list Z);
  rm_k : nat
}.

(** [centers[labels[k]][0]] *)
Definition center_of_label {S : Type} (centers : list (list R)) (labels : list Z) (k : nat)
  : exec S R :=
  l ← vec_get labels k;
  (if decide (l < 0)%Z then fault 0 else mret tt);;
  c ← vec_get centers (Z.to_nat l);
  vec_get c 0.

(** [q[x] = 1;] on row [y] of [refined_mask]. *)
Definition rm_mark (y x : nat) : exec rm_vars unit :=
  v ← get;
  row ← vec_get (refined_mask v) y;
  row' ← vec_set row x 1%Z;
  modify (fun v => mkRm (<[y := row']> (refined_mask v)) (rm_k v)).

(** Lines 112 to 140 of [get_ellipses]: from the clustering of the
    distances to [refined_mask]. *)
Definition get_ellipses_refined_mask (annulus_mask : list (list Z))
  (centers : list (list R)) (labels : list Z) : exec rm_vars (list (list Z)) :=
  c0 ← vec_get centers 0; c00 ← vec_get c0 0;
  c1 ← vec_get centers 1; c10 ← vec_get c1 0;
  c2 ← vec_get centers 2; c20 ← vec_get c2 0;
  let center_vals := [c00; c10; c20] in
  let center_vals := merge_sort Rle center_vals in
  llim ← vec_get center_vals 0;
  ulim ← vec_get center_vals 2;
  modify (fun v => mkRm (replicate (px_rows annulus_mask)
                                   (replicate (px_cols annulus_mask) 0%Z)) 0);;
  for_each (seq 0 (px_rows annulus_mask)) (fun y =>
    for_each (seq 0 (px_cols annulus_mask)) (fun x =>
      p ← px_get annulus_mask y x;
      if decide (p <> 0%Z) then
        v ← get;
        ck ← center_of_label centers labels (rm_k v);
        (if bool_decide (ck >= llim) then
           ck' ← center_of_label centers labels (rm_k v);
           if bool_decide (ck' <= ulim) then rm_mark y x else mret tt
         else mret tt);;
        modify (fun v => mkRm (refined_mask v) (S (rm_k v)))
      else mret tt));;
  v ← get;
  mret (refined_mask v).

(** What the loop leaves in [refined_mask] for a pixel [p] of
    [annulus_mask] that passes the test on the centres. *)
Definition kept (p : Z) : Z := if decide (p <> 0%Z) then 1%Z else 0%Z.

(** Line 143 of [get_ellipses], after the filter: the second fit, on
    [refined_mask].  [thresh] and [max_iter] are the defaults of
    [hyper_renorm_ellipse], declared in a header that is not at hand. *)
Definition get_ellipses_refit (feval : call -> string + list (list R))
  (annulus_mask : list (list Z)) (annulus : list (list R))
  (centers : list (list R)) (labels : list Z) (f0 thresh : R) (max_iter : Z)
  : exec (mstate hre_vars) (list R) :=
  fun s =>
    match get_ellipses_refined_mask annulus_mask centers labels (mkRm [] 0) with
    | (Ok refined_mask, _) =>
        hyper_renorm_ellipse feval refined_mask annulus f0 thresh max_iter s
    | (OutOfRange i, _) => (OutOfRange i, s)
    | (Raised msg, _) => (Raised msg, s)
    end.

End RefinedMask.

(** * The annular mask as the program builds it *)

Section AnnularMaskBody.

Open Scope R_scope.

(** What the theorems use of the conversion of a number to [float]: it is
    monotone, and it leaves unchanged the multiples of [2^-12] up to 4096 in
    magnitude, which a [float] holds exactly. *)
Definition float_conversion (fl : R -> R) : Prop :=
  (forall x y, x <= y -> fl x <= fl y)
  /\ (forall k : Z, (Z.abs k <= 2 ^ 24)%Z -> fl (IZR k / 4096) = IZR k / 4096).

(** A row pointer that no other round of the loop has changed between its
    assignment in round [i] and its use. *)
Definition undisturbed (row : nat -> nat -> nat) : Prop := forall i j, row i j = i.

(** The header a variable holds after [annulus = cv::Mat::zeros(...)] with a
    size that is not negative, and the buffer it is on: its own if it fits,
    a fresh one otherwise. *)
Definition assigned_buffer (sigma : store) (m : Mat) (size : Z) : positive :=
  match data m with
  | Some l =>
      if decide (rows m = Z.to_nat size /\ cols m = Z.to_nat size)
      then l else fresh (dom sigma)
  | None => fresh (dom sigma)
  end.
Definition assigned_header (sigma : store) (m : Mat) (size : Z) : Mat :=
  mkMat (Some (assigned_buffer sigma m size)) (Z.to_nat size) (Z.to_nat size).

(** The [float] a number is converted to. *)
Variable to_float : R -> R.

(** The row the pointer [p] designates when round [i] of the outer loop
    writes [p[j]].  [p] is declared before the [#pragma omp parallel for],
    so the threads share it, and another round may have assigned it since
    round [i] did.  In a run with one thread it is row [i]. *)
Variable p_row : nat -> nat -> nat.

(** [float dist = std::sqrt(...); dist >= inner_rad && dist <= outer_rad]:
    the square root is stored in a [float], and each radius is converted to
    [float] for the comparison. *)
Definition annulus_test_float (size inner_rad outer_rad : Z) (i j : nat) : bool :=
  let dist := to_float (annulus_dist size i j) in
  bool_decide (dist >= to_float (IZR inner_rad))
  && bool_decide (dist <= to_float (IZR outer_rad)).

(** The body of [create_annular_mask]: what the parameter variable
    [annulus], a copy of the caller's header, refers to when the function
    reaches its end. *)
Definition create_annular_mask_body (annulus : Mat) (size inner_rad outer_rad : Z)
  (val : Z) : exec store Mat :=
  annulus ← Mat_assign_zeros annulus size size;
  for_each (seq 0 (Z.to_nat size)) (fun i =>
    for_each (seq 0 (Z.to_nat size)) (fun j =>
      if annulus_test_float size inner_rad outer_rad i j
      then Mat_write annulus (p_row i j) j val
      else mret tt));;
  mret annulus.

(** [void create_annular_mask(cv::Mat annulus, const int size, const int
    inner_rad, const int outer_rad, const byte val)]: the parameter is a
    copy of the caller's header, and nothing is returned. *)
Definition create_annular_mask (annulus : Mat) (size inner_rad outer_rad : Z)
  (val : Z) : exec store unit :=
  create_annular_mask_body annulus size inner_rad outer_rad val;;
  mret tt.

(** The first two statements of the loop body of [get_ellipses]:
    [cv::Mat annulus_mask, annulus;] and the call of [create_annular_mask],
    with [val] at its default 1.  [est_rad[i]] holds floats: the size
    [2*est_rad[i][1]+1] is computed in [float], and the three arguments are
    truncated to [int].  The result is [annulus_mask] as the statements
    that follow see it. *)
Definition get_ellipses_annulus_mask (est_rad0 est_rad1 : R) : exec store Mat :=
  let annulus_mask := Mat_empty in
  create_annular_mask annulus_mask
    (double_to_int (to_float (2 * est_rad1 + 1)))
    (double_to_int est_rad0) (double_to_int est_rad1) 1;;
  mret annulus_mask.

End AnnularMaskBody.

(** * Rotation of a point *)

Section Rotation.

Open Scope R_scope.

(** [cv::Point2d rotate_point2D(cv::Point2d &point, const double angle)] *)
Definition rotate_point2D (point : Point2d) (angle : R) : Point2d :=
  mkPoint2d (px point * cos angle - py point * sin angle)
            (px point * sin angle + py point * cos angle).

End Rotation.

(** * The part of the image under the mask *)

Section MaskValues.

Open Scope Z_scope.

(** [cv::Point2i] and [cv::Rect]. *)
Record Point2i : Type := mkPoint2i { ix : Z; iy : Z }.
Record Rect : Type := mkRect { rect_x : Z; rect_y : Z; rect_width : Z; rect_height : Z }.

(** The two rectangles [get_mask_values] builds on its last line, the first
    one for [img] and the second one for [mask].  Both the horizontal and
    the vertical limits are computed from [mask.cols] and [img.cols]. *)
Definition get_mask_values_rects (img mask : Mat) (top_left : Point2i) : Rect * Rect :=
  let img_cols := Z.of_nat (cols img) in
  let mask_cols := Z.of_nat (cols mask) in
  let llimx := if decide (ix top_left >= 0) then 0 else - ix top_left in
  let ulimx := if decide (ix top_left + mask_cols <= img_cols)
               then mask_cols else img_cols - ix top_left in
  let llimy := if decide (iy top_left >= 0) then 0 else - iy top_left in
  let ulimy := if decide (iy top_left + mask_cols <= img_cols)
               then mask_cols else img_cols - iy top_left in
  let top_leftx := if decide (llimx <> 0) then 0 else ix top_left in
  let top_lefty := if decide (llimy <> 0) then 0 else iy top_left in
  (mkRect top_leftx top_lefty (ulimx - llimx) (ulimy - llimy),
   mkRect 0 0 (ulimx - llimx) (ulimy - llimy)).

(** What [cv::Mat::operator()(const cv::Rect &)] requires of the rectangle:
    it lies inside the matrix. *)
Definition Rect_inside (r : Rect) (m : Mat) : Prop :=
  0 <= rect_x r /\ 0 <= rect_width r /\ rect_x r + rect_width r <= Z.of_nat (cols m)
  /\ 0 <= rect_y r /\ 0 <= rect_height r /\ rect_y r + rect_height r <= Z.of_nat (rows m).

End MaskValues.

(** * The amplitude of the Scharr filtrate *)

Section Scharr.

Open Scope R_scope.

(** [cv::Sobel(img, dst, CV_32FC1, dx, dy, CV_SCHARR)]: the filtrate of
    [img] for the derivative orders [dx] and [dy]. *)
Variable Sobel : list (list R) -> nat -> nat -> list (list R).

(** The rows the pointers [p] and [q] designate when round [i] of the outer
    loop computes [p[j]].  Both are declared before the
    [#pragma omp parallel for], so the threads share them; in a run with
    one thread both designate row [i]. *)
Variable p_row q_row : nat -> nat -> nat.

(** [void scharr_amp(cv::Mat &img, cv::Mat &scharr_amp)].  The state is the
    contents of the local [gradx], which the loops overwrite in place and
    the output parameter then shares. *)
Definition scharr_amp (img : list (list R)) : exec (list (list R)) (list (list R)) :=
  let grady := Sobel img 1 0 in
  modify (fun _ => Sobel img 0 1);;
  for_each (seq 0 (px_rows img)) (fun i =>
    for_each (seq 0 (px_cols img)) (fun j =>
      gradx ← get;
      p ← px_get gradx (p_row i j) j;
      q ← px_get grady (q_row i j) j;
      row ← vec_get gradx (p_row i j);
      row' ← vec_set row j (sqrt (p * p + q * q));
      modify (fun _ => <[p_row i j := row']> gradx)));;
  get.

End Scharr.

(** * The sums along the rows of the rotated image *)

Section RowSums.

Open Scope R_scope.

(** The vector [row_sums] and the counter [num_contrib] of
    [inv_sqr_inciding_sign]. *)
Record rs_vars : Type := mkRs {
  row_sums : list R;
  num_contrib : Z
}.

(** [row_sums[i] = f(row_sums[i])], for [row_sums[i] += ...] and
    [row_sums[i] /= ...]. *)
Definition rs_update (i : nat) (f : R -> R) : exec rs_vars unit :=
  v ← get;
  s ← vec_get (row_sums v) i;
  rs ← vec_set (row_sums v) i (f s);
  modify (fun v => mkRs rs (num_contrib v)).

(** Lines 472 to 491 of [inv_sqr_inciding_sign]: from the declaration of
    [row_sums] to the end of the loop over the rows of [rot]. *)
Definition inv_sqr_inciding_sign_row_sums (rot : list (list R)) : exec rs_vars (list R) :=
  modify (fun v => mkRs [] (num_contrib v));;
  for_each (seq 0 (px_rows rot)) (fun i =>
    modify (fun v => mkRs (row_sums v) 0%Z);;
    for_each (seq 0 (px_cols rot)) (fun j =>
      p ← px_get rot i j;
      if decide (p <> 0) then
        rs_update i (fun s => s + p);;
        modify (fun v => mkRs (row_sums v) (num_contrib v + 1)%Z)
      else mret tt);;
    v ← get;
    rs_update i (fun s => s / IZR (num_contrib v)));;
  v ← get;
  mret (row_sums v).

End RowSums.

(** * The distances of the marked pixels from the first fit *)

Section Distances.

Open Scope R_scope.

Variable feval : call -> string + list (list R).

(** The locals [x], [y] and [k] and the output parameter [dists] of
    [dists_from_ellipse]. *)
Record dfe_vars : Type := mkDfe {
  dfe_x : list R;
  dfe_y : list R;
  dfe_k : nat;
  dists : list R
}.

(** [x[k] = (double)j; y[k] = (double)i; k++;] *)
Definition dfe_pack (i j : nat) : exec (mstate dfe_vars) unit :=
  v ← get_vars;
  x ← vec_set (dfe_x v) (dfe_k v) (INR j);
  y ← vec_set (dfe_y v) (dfe_k v) (INR i);
  modify_vars (fun v => mkDfe x y (S (dfe_k v)) (dists v)).

(** [dists[i] = dists_info[i];] *)
Definition dfe_copy (dists_info : list R) (i : nat) : exec (mstate dfe_vars) unit :=
  d ← array_get dists_info i;
  v ← get_vars;
  ds ← vec_set (dists v) i d;
  modify_vars (fun v => mkDfe (dfe_x v) (dfe_y v) (dfe_k v) ds).

(** The arguments packaged for the MATLAB function
    [dist_points_to_ellipse]. *)
Definition dfe_call (nnz_px : nat) (x y : list R) (p3 p2 p0 p1 p4 accuracy : R) : call :=
  mkCall "dist_points_to_ellipse" 1
    [ MArray [nnz_px; 1%nat] x;
      MArray [nnz_px; 1%nat] y;
      MDouble p3;
      MDouble p2;
      MDouble p0;
      MDouble p1;
      MDouble p4;
      MDouble accuracy ].

(** [void dists_from_ellipse(cv::Mat &mask, cv::Mat &img,
    std::vector<double> &param, std::vector<double> &dists, const double
    accuracy)].  The body does not use [img]. *)
Definition dists_from_ellipse (mask : list (list Z)) (img : list (list R))
  (param : list R) (accuracy : R) : exec (mstate dfe_vars) unit :=
  let nnz_px := countNonZero mask in
  modify_vars (fun v => mkDfe (replicate nnz_px 0) (replicate nnz_px 0) 0 (dists v));;
  for_each (seq 0 (px_rows mask)) (fun i =>
    for_each (seq 0 (px_cols mask)) (fun j =>
      b ← px_get mask i j;
      if decide (b <> 0%Z) then dfe_pack i j else mret tt));;
  v ← get_vars;
  p3 ← vec_get param 3;
  p2 ← vec_get param 2;
  p0 ← vec_get param 0;
  p1 ← vec_get param 1;
  p4 ← vec_get param 4;
  outs ← engine_feval feval
         (dfe_call nnz_px (dfe_x v) (dfe_y v) p3 p2 p0 p1 p4 accuracy);
  let dists_info := default [] (head outs) in
  modify_vars (fun v => mkDfe (dfe_x v) (dfe_y v) (dfe_k v) (replicate nnz_px 0));;
  for_each (seq 0 nnz_px) (dfe_copy dists_info).

End Distances.

(** * The marked pixels of a mask, in the order of the packaging loops *)

Section MarkedPixels.

(** The positions [(i, j)] of the non-zero pixels of a row, from column
    [j0] on, and of a mask, from row [i0] on. *)
Fixpoint marks_row (i j0 : nat) (row : list Z) : list (nat * nat) :=
  match row with
  | [] => []
  | p :: row' =>
      (if decide (p <> 0%Z) then [(i, j0)] else []) ++ marks_row i (S j0) row'
  end.

Fixpoint marks (i0 : nat) (mask : list (list Z)) : list (nat * nat) :=
  match mask with
  | [] => []
  | row :: mask' => marks_row i0 0 row ++ marks (S i0) mask'
  end.

(** The weight at a position, 0 where [weights] has no pixel. *)
Definition weight_at (weights : list (list R)) (ij : nat * nat) : R :=
  default 0%R (weights !! fst ij ≫= (.!! snd ij)).

(** The variables of [hyper_renorm_ellipse] when the pixels [ms] have been
    packaged into vectors of [n] entries. *)
Definition hre_packed (weights : list (list R)) (n : nat) (ms : list (nat * nat))
  (e : list R) : hre_vars :=
  mkHre (map (fun ij => INR (snd ij)) ms ++ replicate (n - length ms) 0%R)
        (map (fun ij => INR (fst ij)) ms ++ replicate (n - length ms) 0%R)
        (map (weight_at weights) ms ++ replicate (n - length ms) 0%R)
        (length ms) e.

(** The same for [dists_from_ellipse]. *)
Definition dfe_packed (n : nat) (ms : list (nat * nat)) (d : list R) : dfe_vars :=
  mkDfe (map (fun ij => INR (snd ij)) ms ++ replicate (n - length ms) 0%R)
        (map (fun ij => INR (fst ij)) ms ++ replicate (n - length ms) 0%R)
        (length ms) d.

End MarkedPixels.

(** * The amplitudes of two filtrates *)

Section Quadrature.

Open Scope R_scope.

(** [std::sqrt(p*p + q*q)], and the matrix of these for two matrices. *)
Definition amplitude (p q : R) : R := sqrt (p * p + q * q).
Definition quadrature (gx gy : list (list R)) : list (list R) :=
  zip_with (zip_with amplitude) gx gy.

(** A matrix of [rows] rows of [cols] pixels. *)
Definition shape_of (m : list (list R)) (rows cols : nat) : Prop :=
  length m = rows /\ Forall (fun row => length row = cols) m.

End Quadrature.

(** * The angle of the elongation *)

Section IncidingAngle.

Open Scope R_scope.

(** [double angle = std::asin( dir[0] / std::abs(dir[0]*dir[0] + dir[1]*dir[1]) );] *)
Definition inv_sqr_inciding_sign_angle (dir0 dir1 : R) : R :=
  asin (dir0 / Rabs (dir0 * dir0 + dir1 * dir1)).

(** The angle passed to [rotate_CV]: [dir[1] > 0 ? angle : 2*PI-angle]. *)
Definition inv_sqr_inciding_sign_rotation (dir0 dir1 : R) : R :=
  let angle := inv_sqr_inciding_sign_angle dir0 dir1 in
  if decide (dir1 > 0) then angle else 2 * PI - angle.

End IncidingAngle.

End ba.

(** * Notions for the area of the mask *)

Section AreaDefs.

Open Scope R_scope.

(** Sum of [f 0 .. f (n-1)]. *)
Fixpoint rsum (n : nat) (f : nat -> R) : R :=
  match n with
  | O => 0
  | S k => rsum k f + f k
  end.






End AreaDefs.

Import ba.

(** * Running the model *)

Lemma exec_bind_ok {S A B : Type} (m : exec S A) (k : A -> exec S B) (s s' : S) (x : A) :
  m s = (Ok x, s') -> (m ≫= k) s = k x s'.
Proof. intros H. unfold mbind, exec_mbind, exec_bind. now rewrite H. Qed.

Lemma exec_bind_fault {S A B : Type} (m : exec S A) (k : A -> exec S B) (s s' : S) (i : nat) :
  m s = (OutOfRange i, s') -> (m ≫= k) s = (OutOfRange i, s').
Proof. intros H. unfold mbind, exec_mbind, exec_bind. now rewrite H. Qed.

Lemma exec_bind_raised {S A B : Type} (m : exec S A) (k : A -> exec S B) (s s' : S) msg :
  m s = (Raised msg, s') -> (m ≫= k) s = (Raised msg, s').
Proof. intros H. unfold mbind, exec_mbind, exec_bind. now rewrite H. Qed.

Lemma exec_bind_inv_ok {S A B : Type} (m : exec S A) (k : A -> exec S B) (s s' : S) (y : B) :
  (m ≫= k) s = (Ok y, s') -> exists x s1, m s = (Ok x, s1) /\ k x s1 = (Ok y, s').
Proof.
  unfold mbind, exec_mbind, exec_bind.
  destruct (m s) as [[x|i|msg] s1]; intros H; try discriminate.
  now exists x, s1.
Qed.

(** A loop whose body does nothing in state [s] does nothing. *)
Lemma for_each_skip {S A : Type} (l : list A) (body : A -> exec S unit) (s : S) :
  (forall x, x ∈ l -> body x s = (Ok tt, s)) -> for_each l body s = (Ok tt, s).
Proof.
  induction l as [|x l IH]; intros H; [reflexivity|].
  cbn. rewrite (exec_bind_ok _ _ s s tt).
  - apply IH. intros y Hy. apply H. now right.
  - apply H. now left.
Qed.

Ltac exec_unfold :=
  cbv [mbind exec_mbind exec_bind mret exec_mret exec_ret get modify fault raise
       vec_get vec_set].

(** Loops, inversion of single steps, and lists. *)

(** What holds before a loop and is kept by each round that ends normally
    holds after the loop, when it ends normally. *)
Lemma for_each_preserves {S A : Type} (P : S -> Prop) (l : list A) (body : A -> exec S unit) :
  (forall x s s', body x s = (Ok tt, s') -> P s -> P s') ->
  forall s s', for_each l body s = (Ok tt, s') -> P s -> P s'.
Proof.
  intros Hbody. induction l as [|x l IH]; intros s s' H Hs.
  - inversion H; subst. assumption.
  - cbn in H. apply exec_bind_inv_ok in H as ([] & s1 & H1 & H2).
    eapply IH; eauto.
Qed.

Lemma get_vars_inv {V : Type} (s s' : mstate V) v :
  get_vars s = (Ok v, s') -> v = vars s /\ s' = s.
Proof. unfold get_vars. intros H. inversion H. auto. Qed.

Lemma vec_get_inv {S A : Type} (l : list A) i (s s' : S) x :
  vec_get l i s = (Ok x, s') -> l !! i = Some x /\ s' = s.
Proof.
  unfold vec_get. destruct (l !! i); intros H; inversion H; auto.
Qed.

Lemma vec_set_inv {S A : Type} (l : list A) i x (s s' : S) l' :
  vec_set l i x s = (Ok l', s') -> (i < length l)%nat /\ l' = <[i := x]> l /\ s' = s.
Proof.
  unfold vec_set. destruct (decide (i < length l)%nat); intros H; inversion H; auto.
Qed.

Lemma array_get_inv {S : Type} (l : list R) i (s s' : S) x :
  array_get l i s = (Ok x, s') -> l !! i = Some x /\ s' = s.
Proof.
  unfold array_get. destruct (l !! i); intros H; inversion H; auto.
Qed.

(** A loop over [a, a+n) with an invariant indexed by the loop counter. *)
Lemma for_each_seq_inv {St : Type} (I : nat -> St -> Prop) (body : nat -> exec St unit) n :
  forall a s,
    I a s ->
    (forall i t, (a <= i < a + n)%nat -> I i t -> exists t', body i t = (Ok tt, t') /\ I (S i) t') ->
    exists s', for_each (seq a n) body s = (Ok tt, s') /\ I (a + n)%nat s'.
Proof.
  induction n as [|n IH]; intros a s Ha Hstep.
  - exists s. rewrite Nat.add_0_r. split; [reflexivity|assumption].
  - destruct (Hstep a s ltac:(lia) Ha) as (t & Hb & Ht).
    destruct (IH (S a) t Ht) as (s' & Hl & Hs').
    { intros i u Hi Hu. apply Hstep; [lia|assumption]. }
    exists s'. split.
    + cbn [seq for_each]. erewrite exec_bind_ok by exact Hb. exact Hl.
    + replace (a + S n)%nat with (S a + n)%nat by lia. exact Hs'.
Qed.

Lemma insert_middle {A : Type} (l1 l2 : list A) x y n :
  n = length l1 -> <[n := y]> (l1 ++ x :: l2) = l1 ++ y :: l2.
Proof.
  intros ->. rewrite insert_app_r_alt by lia. now rewrite Nat.sub_diag.
Qed.

Lemma length_map_take {A B : Type} (f : A -> B) (l : list A) n :
  (n <= length l)%nat -> n = length (map f (take n l)).
Proof. intros H. rewrite length_map, length_take. lia. Qed.

Lemma seq_S_map {A : Type} (f : nat -> A) n :
  map f (seq 0 (S n)) = map f (seq 0 n) ++ [f n].
Proof. now rewrite seq_S, map_app. Qed.

Lemma countNonZero_app (m1 m2 : list (list Z)) :
  countNonZero (m1 ++ m2) = (countNonZero m1 + countNonZero m2)%nat.
Proof. unfold countNonZero. now rewrite concat_app, filter_app, length_app. Qed.

Lemma countNonZero_row_app (r1 r2 : list Z) :
  countNonZero_row (r1 ++ r2) = (countNonZero_row r1 + countNonZero_row r2)%nat.
Proof. unfold countNonZero_row. now rewrite filter_app, length_app. Qed.

Lemma countNonZero_single (row : list Z) : countNonZero [row] = countNonZero_row row.
Proof. unfold countNonZero, countNonZero_row. cbn. now rewrite app_nil_r. Qed.

(** * Running the model: more on loops *)

Section MoreLoops.

(** Two loops with the same body on every index run alike. *)
Lemma for_each_ext {St A : Type} (l : list A) (f g : A -> exec St unit) :
  (forall x s, x ∈ l -> f x s = g x s) -> forall s, for_each l f s = for_each l g s.
Proof.
  induction l as [|x l IH]; intros H s; [reflexivity|].
  cbn [for_each]. unfold mbind, exec_mbind, exec_bind.
  rewrite (H x s) by now left.
  destruct (g x s) as [[[]|i|msg] s1]; try reflexivity.
  apply IH. intros y t Hy. apply H. now right.
Qed.

Lemma exec_bind_cong {St A B : Type} (m1 m2 : exec St A) (k1 k2 : A -> exec St B) s :
  m1 s = m2 s -> (forall x s', k1 x s' = k2 x s') -> (m1 ≫= k1) s = (m2 ≫= k2) s.
Proof.
  intros Hm Hk. unfold mbind, exec_mbind, exec_bind. rewrite Hm.
  destruct (m2 s) as [[x|i|msg] s1]; [apply Hk | reflexivity | reflexivity].
Qed.

(** A loop over two lists in a row. *)
Lemma for_each_app {St A : Type} (l1 l2 : list A) (body : A -> exec St unit) s :
  for_each (l1 ++ l2) body s = (for_each l1 body;; for_each l2 body) s.
Proof.
  revert s. induction l1 as [|x l1 IH]; intros s; [reflexivity|].
  cbn [app for_each]. unfold mbind, exec_mbind, exec_bind.
  destruct (body x s) as [[[]|i|msg] s1]; try reflexivity.
  rewrite IH. reflexivity.
Qed.

(** A loop each round of which either does nothing or stops at index [i]
    without a change of state does the same as a whole. *)
Lemma for_each_skip_or_stop {St A : Type} (l : list A) (body : A -> exec St unit) (s : St) i :
  (forall x, x ∈ l -> body x s = (Ok tt, s) \/ body x s = (OutOfRange i, s)) ->
  for_each l body s = (Ok tt, s) \/ for_each l body s = (OutOfRange i, s).
Proof.
  induction l as [|x l IH]; intros H; [now left|].
  cbn [for_each].
  destruct (H x ltac:(now left)) as [Hx|Hx].
  - erewrite exec_bind_ok by exact Hx. apply IH. intros y Hy. apply H. now right.
  - right. erewrite exec_bind_fault by exact Hx. reflexivity.
Qed.

Lemma lookup_map {A B : Type} (f : A -> B) (l : list A) : forall i,
  map f l !! i = option_map f (l !! i).
Proof.
  induction l as [|x l IH]; intros [|i]; try reflexivity. apply IH.
Qed.

Lemma lookup_map_seq {A : Type} (f : nat -> A) n i :
  (i < n)%nat -> map f (seq 0 n) !! i = Some (f i).
Proof.
  intros Hi. rewrite lookup_map, lookup_seq_lt by exact Hi. reflexivity.
Qed.

(** What every step keeps holds of the state a run ends in, however it
    ends. *)
Lemma exec_bind_always {St A B : Type} (P : St -> Prop) (m : exec St A)
  (k : A -> exec St B) s :
  P (snd (m s)) -> (forall x s', P s' -> P (snd (k x s'))) -> P (snd ((m ≫= k) s)).
Proof.
  unfold mbind, exec_mbind, exec_bind.
  destruct (m s) as [[x|i|msg] s1]; cbn; auto.
Qed.

Lemma for_each_always {St A : Type} (P : St -> Prop) (l : list A)
  (body : A -> exec St unit) :
  (forall x s, P s -> P (snd (body x s))) -> forall s, P s -> P (snd (for_each l body s)).
Proof.
  intros H. induction l as [|x l IH]; intros s Hs; [exact Hs|].
  cbn [for_each]. apply exec_bind_always; [now apply H|].
  intros [] s' Hs'. now apply IH.
Qed.

End MoreLoops.

(** * Conic to ellipse: properties *)

Section ConicFacts.

Open Scope R_scope.

(** A conic whose test value [4AC - B^2] is positive takes the first branch:
    the flag is cleared, nothing else is written, and [el] is returned. *)
Lemma conic_positive_test A B C D E F fr :
  4 * A * C - B * B > 0 ->
  let e := mkEllipse false (angle (el fr)) (center (el fr)) (a (el fr)) (b (el fr)) in
  ellipse_points_from_conic [A; B; C; D; E; F] fr = (Ok e, mkFrame e (extrema fr)).
Proof.
  intros H e. unfold ellipse_points_from_conic.
  exec_unfold; cbn.
  destruct (decide (4.0 * A * C - B * B > 0)) as [_|n]; [|exfalso; apply n; lra].
  reflexivity.
Qed.

(** A conic whose test value is not positive takes the second branch: the
    flag is set, the angle is recorded, and the run stops at the write of
    [extrema[4]]. *)
Lemma conic_nonpositive_test A B C D E F fr :
  4 * A * C - B * B <= 0 ->
  let r := ellipse_points_from_conic [A; B; C; D; E; F] fr in
  let t := atan (B / (A - C)) in
  fst r = OutOfRange 4
  /\ is_ellipse (el (snd r)) = true
  /\ angle (el (snd r)) = 0.5 * (if decide (t < 0) then t + 0.5 * PI else t)
  /\ length (extrema (snd r)) = 4%nat.
Proof.
  intros H r t. subst r t. unfold ellipse_points_from_conic.
  exec_unfold; cbn.
  destruct (decide (4.0 * A * C - B * B > 0)) as [n|_]; [exfalso; lra|].
  cbv [extrema_set set_is_ellipse set_angle set_a set_b set_center new_extrema
       modify get mbind exec_mbind exec_bind vec_set mret exec_mret exec_ret
       el extrema replicate length decide fault].
  cbn. repeat split; reflexivity.
Qed.

Lemma conic_of_ellipse_test cx cy sa sb theta :
  0 < sa -> 0 < sb ->
  exists A B C D E F,
    conic_of_ellipse cx cy sa sb theta = [A; B; C; D; E; F]
    /\ 4 * A * C - B * B = 4 / (sa * sa * (sb * sb)).
Proof.
  intros Ha Hb. unfold conic_of_ellipse. cbv zeta.
  do 6 eexists. split; [reflexivity|].
  pose proof (sin2_cos2 theta) as Hsc. unfold Rsqr in Hsc.
  set (c := cos theta) in *. set (s := sin theta) in *.
  assert (Hc : c * c = 1 - s * s) by lra.
  field_simplify; try lra.
  replace (c ^ 4) with ((c * c) * (c * c)) by ring.
  replace (c ^ 2) with (c * c) by ring.
  rewrite Hc. field. split; lra.
Qed.

(** C1 (code bug).  [ellipse_points_from_conic] clears [is_ellipse] exactly
    when [4AC - B^2 > 0] and sets it when [4AC - B^2 <= 0]: the reverse of
    the rule "false exactly when [4AC - B^2 <= 0]".  The unit circle
    [x^2 + y^2 - 1 = 0], whose test value is 4, comes back with
    [is_ellipse = false]. *)
Theorem is_ellipse_false_iff_test_positive :
  (forall A B C D E F fr,
      is_ellipse (el (snd (ellipse_points_from_conic [A; B; C; D; E; F] fr))) = false
      <-> 4 * A * C - B * B > 0)
  /\ 4 * 1 * 1 - 0 * 0 > 0
  /\ (forall fr, exists e,
         ellipse_points_from_conic [1; 0; 1; 0; 0; -1] fr = (Ok e, mkFrame e (extrema fr))
         /\ is_ellipse e = false).
Proof.
  split; [|split].
  - intros A B C D E F fr. split.
    + intros Hf. destruct (Rlt_le_dec 0 (4 * A * C - B * B)) as [Hd|Hd]; [lra|].
      destruct (conic_nonpositive_test A B C D E F fr Hd) as (_ & Ht & _).
      cbv zeta in Ht. congruence.
    + intros Hd. now rewrite (conic_positive_test A B C D E F fr Hd).
  - lra.
  - intros fr. eexists. split.
    + apply conic_positive_test. lra.
    + reflexivity.
Qed.

(** C2 (code bug).  The conic of any ellipse with semi-axes [sa, sb > 0] has
    test value [4/(sa sb)^2 > 0], so [ellipse_points_from_conic] answers
    with [is_ellipse = false] and leaves centre, axes and angle as they were
    before the call: nothing of the ellipse is reproduced. *)
Theorem round_trip_rejects_every_ellipse cx cy sa sb theta fr :
  0 < sb -> sb <= sa -> 0 <= theta < PI ->
  let e := mkEllipse false (angle (el fr)) (center (el fr)) (a (el fr)) (b (el fr)) in
  ellipse_points_from_conic (conic_of_ellipse cx cy sa sb theta) fr
  = (Ok e, mkFrame e (extrema fr)).
Proof.
  intros Hb Hab _ e.
  destruct (conic_of_ellipse_test cx cy sa sb theta) as (A & B & C & D & E & F & -> & Ht);
    [lra | lra |].
  apply conic_positive_test. rewrite Ht.
  apply Rlt_gt, Rdiv_lt_0_compat; [lra|].
  apply Rmult_lt_0_compat; apply Rmult_lt_0_compat; lra.
Qed.

(** The same holds for every non-zero multiple of the coefficients, which
    describes the same curve. *)
Lemma round_trip_rejects_scaled_conic cx cy sa sb theta lam fr :
  0 < sa -> 0 < sb -> lam <> 0 ->
  let e := mkEllipse false (angle (el fr)) (center (el fr)) (a (el fr)) (b (el fr)) in
  ellipse_points_from_conic (map (Rmult lam) (conic_of_ellipse cx cy sa sb theta)) fr
  = (Ok e, mkFrame e (extrema fr)).
Proof.
  intros Ha Hb Hlam e.
  destruct (conic_of_ellipse_test cx cy sa sb theta) as (A & B & C & D & E & F & -> & Ht);
    [lra | lra |].
  cbn [map]. apply conic_positive_test.
  replace (4 * (lam * A) * (lam * C) - lam * B * (lam * B))
    with (lam * lam * (4 * A * C - B * B)) by ring.
  rewrite Ht. apply Rlt_gt, Rmult_lt_0_compat.
  - destruct (Rtotal_order lam 0) as [Hn | [Hz | Hp]]; [nra | contradiction | nra].
  - apply Rdiv_lt_0_compat; [lra|].
    apply Rmult_lt_0_compat; apply Rmult_lt_0_compat; lra.
Qed.

(** The ellipse [x^2/4 + y^2 = 1] (centre (0,0), semi-axes 2 and 1, angle 0)
    comes back with [is_ellipse = false] and the axes of the frame it
    started from, here 0 and 0. *)
Lemma round_trip_rejects_every_ellipse_witness :
  0 < 1 /\ 1 <= 2 /\ 0 <= 0 < PI
  /\ ellipse_points_from_conic (conic_of_ellipse 0 0 2 1 0) frame0
     = (Ok (mkEllipse false 0 (mkPoint2d 0 0) 0 0), frame0).
Proof.
  pose proof PI_RGT_0 as Hpi.
  split; [lra|]. split; [lra|]. split; [lra|].
  apply (round_trip_rejects_every_ellipse 0 0 2 1 0 frame0); lra.
Defined.

(** C5 (code bug).  For a conic that [ellipse_points_from_conic] accepts
    (test value not positive) and whose coefficients [A] and [C] differ, so
    that [B/(A-C)] is a number, the recorded angle is [atan(B/(A-C))/2]
    when that is non-negative, but [atan(B/(A-C))/2 + PI/4] when it is
    negative: [0.5*PI] is added to twice the angle, so the angle itself
    moves by [PI/4], not by [PI/2].  The recorded angle lies in
    [0, PI/4). *)
Theorem recorded_angle A B C D E F fr :
  4 * A * C - B * B <= 0 -> A <> C ->
  let t := atan (B / (A - C)) in
  let th := angle (el (snd (ellipse_points_from_conic [A; B; C; D; E; F] fr))) in
  (0 <= 0.5 * t -> th = 0.5 * t)
  /\ (0.5 * t < 0 -> th = 0.5 * t + PI / 4 /\ th <> 0.5 * t + PI / 2)
  /\ 0 <= th < PI / 4.
Proof.
  intros H _ t th.
  destruct (conic_nonpositive_test A B C D E F fr H) as (_ & _ & Ha & _).
  cbv zeta in Ha. fold t in Ha. fold th in Ha.
  pose proof (atan_bound (B / (A - C))) as Hb. fold t in Hb.
  pose proof PI_RGT_0 as Hpi.
  destruct (decide (t < 0)) as [Hn|Hn]; repeat split; intros; lra.
Qed.

(** The conic [x^2 - x y - 1 = 0] is accepted; [atan(B/(A-C)) = -PI/4], and
    the recorded angle is [PI/8], not [-PI/8 + PI/2 = 3 PI/8]. *)
Lemma recorded_angle_witness :
  4 * 1 * 0 - (-1) * (-1) <= 0 /\ 1 <> 0
  /\ angle (el (snd (ellipse_points_from_conic [1; -1; 0; 0; 0; -1] frame0))) = PI / 8
  /\ 0.5 * atan (-1 / (1 - 0)) + PI / 2 = 3 * PI / 8.
Proof.
  assert (Ht : atan (-1 / (1 - 0)) = - (PI / 4)).
  { replace (-1 / (1 - 0)) with (Ropp 1) by field. rewrite atan_opp, atan_1. reflexivity. }
  assert (Hd : 4 * 1 * 0 - (-1) * (-1) <= 0) by lra.
  assert (Hne : 1 <> 0) by lra.
  split; [exact Hd|]. split; [exact Hne|].
  pose proof PI_RGT_0 as Hpi.
  destruct (recorded_angle 1 (-1) 0 0 0 (-1) frame0 Hd Hne) as (_ & Hneg & _).
  rewrite Ht in *.
  split; [|lra].
  destruct Hneg as [Hneg _]; lra.
Defined.

(** C10 (code bug).  On every accepted conic the four writes go to
    [extrema[1]], [extrema[2]], [extrema[3]] and [extrema[4]] of a vector of
    4 elements: the last one is outside the vector, and the run stops there
    instead of returning. *)
Theorem extrema_write_out_of_range A B C D E F fr :
  4 * A * C - B * B <= 0 ->
  let r := ellipse_points_from_conic [A; B; C; D; E; F] fr in
  fst r = OutOfRange 4 /\ length (extrema (snd r)) = 4%nat.
Proof.
  intros H r.
  destruct (conic_nonpositive_test A B C D E F fr H) as (Hf & _ & _ & Hl).
  split; assumption.
Qed.

(** The hyperbola [x^2 - y^2 - 1 = 0]. *)
Lemma extrema_write_out_of_range_witness :
  4 * 1 * (-1) - 0 * 0 <= 0
  /\ fst (ellipse_points_from_conic [1; 0; -1; 0; 0; -1] frame0) = OutOfRange 4
  /\ length (extrema (snd (ellipse_points_from_conic [1; 0; -1; 0; 0; -1] frame0))) = 4%nat.
Proof.
  assert (Hd : 4 * 1 * (-1) - 0 * 0 <= 0) by lra.
  split; [exact Hd|].
  exact (extrema_write_out_of_range 1 0 (-1) 0 0 (-1) frame0 Hd).
Defined.

End ConicFacts.

(** * The fitting routine: properties *)

Section HyperRenormFacts.

Open Scope R_scope.

Variable feval : call -> string + list (list R).

Lemma hre_store_length val s s' :
  hre_store val s = (Ok tt, s') ->
  length (ellipse_param (vars s')) = length (ellipse_param (vars s)).
Proof.
  unfold hre_store. exec_unfold. cbv [get_vars modify_vars]. cbn.
  destruct (decide _) as [Hlt|Hge]; intros H; inversion H; subst; cbn.
  apply length_insert.
Qed.

Lemma for_each_hre_store_length el s s' :
  for_each el hre_store s = (Ok tt, s') ->
  length (ellipse_param (vars s')) = length (ellipse_param (vars s)).
Proof.
  revert s. induction el as [|val el IH]; intros s H.
  - inversion H; subst. reflexivity.
  - cbn in H. apply exec_bind_inv_ok in H as ([] & s1 & H1 & H2).
    rewrite (IH _ H2). eapply hre_store_length; eauto.
Qed.

(** Whatever the engine replies, a vector that [hyper_renorm_ellipse]
    returns has 5 elements. *)
Lemma hyper_renorm_ellipse_length mask weights f0 thresh max_iter s v s' :
  hyper_renorm_ellipse feval mask weights f0 thresh max_iter s = (Ok v, s') ->
  length v = 5%nat.
Proof.
  unfold hyper_renorm_ellipse. intros H.
  apply exec_bind_inv_ok in H as ([] & s1 & _ & H).
  apply exec_bind_inv_ok in H as ([] & s2 & _ & H).
  apply exec_bind_inv_ok in H as (v2 & s3 & _ & H).
  apply exec_bind_inv_ok in H as (outs & s4 & _ & H).
  apply exec_bind_inv_ok in H as ([] & s5 & H5 & H).
  apply exec_bind_inv_ok in H as ([] & s6 & H6 & H).
  apply for_each_hre_store_length in H6.
  cbv [modify_vars] in H5. inversion H5; subst. cbn in H6.
  cbv [mbind exec_mbind exec_bind get_vars mret exec_mret exec_ret] in H. inversion H; subst.
  exact H6.
Qed.

Lemma hre_store_step v x y w k p cs :
  hre_store v (mkMstate (mkHre x y w k p) cs)
  = if decide (k < length p)%nat
    then (Ok tt, mkMstate (mkHre x y w (S k) (<[k := v]> p)) cs)
    else (OutOfRange k, mkMstate (mkHre x y w k p) cs).
Proof.
  unfold hre_store. exec_unfold. cbv [get_vars modify_vars]. cbn.
  destruct (decide (k < length p)%nat); reflexivity.
Qed.

(** The copy of the reply into [ellipse_param]: it fits, or it stops at the
    first index past the vector. *)
Lemma for_each_hre_store el : forall x y w k p cs,
  (k <= length p)%nat ->
  for_each el hre_store (mkMstate (mkHre x y w k p) cs)
  = if decide (k + length el <= length p)%nat
    then (Ok tt, mkMstate (mkHre x y w (k + length el)
                                 (take k p ++ el ++ drop (k + length el) p)) cs)
    else (OutOfRange (length p),
          mkMstate (mkHre x y w (length p) (take k p ++ take (length p - k) el)) cs).
Proof.
  induction el as [|v el IH]; intros x y w k p cs Hk.
  - cbn. rewrite decide_True by lia. rewrite Nat.add_0_r, take_drop. reflexivity.
  - cbn [for_each length].
    destruct (decide (k < length p)%nat) as [Hlt|Hge].
    + erewrite exec_bind_ok by (rewrite hre_store_step, decide_True by lia; reflexivity).
      rewrite IH by (rewrite length_insert; lia).
      rewrite length_insert.
      assert (Htk : take (S k) (<[k:=v]> p) = take k p ++ [v]).
      { rewrite (take_S_r _ _ v) by (apply list_lookup_insert_eq; lia).
        rewrite take_insert_ge by lia. reflexivity. }
      destruct (decide (S k + length el <= length p)%nat) as [Hfit|Hover].
      * rewrite decide_True by lia.
        rewrite Htk, drop_insert_lt by lia.
        rewrite <- app_assoc. cbn.
        replace (k + S (length el))%nat with (S (k + length el))%nat by lia.
        reflexivity.
      * rewrite decide_False by lia.
        rewrite Htk, <- app_assoc. cbn.
        replace (length p - k)%nat with (S (length p - S k)) by lia.
        reflexivity.
    + erewrite exec_bind_fault by (rewrite hre_store_step, decide_False by lia; reflexivity).
      rewrite decide_False by lia.
      assert (k = length p) as -> by lia.
      rewrite Nat.sub_diag, take_0, app_nil_r, firstn_all. reflexivity.
Qed.

Lemma countNonZero_zero_lookup (mask : list (list Z)) i j row p :
  countNonZero mask = 0%nat -> mask !! i = Some row -> row !! j = Some p -> p = 0%Z.
Proof.
  unfold countNonZero. intros H Hi Hj.
  destruct (decide (p = 0%Z)) as [|Hp]; [assumption|exfalso].
  assert (Hin : p ∈ filter (fun v => v <> 0%Z) (concat mask)).
  { apply list_elem_of_filter. split; [assumption|].
    apply list_elem_of_In, in_concat. exists row.
    split; apply list_elem_of_In; eapply list_elem_of_lookup_2; eauto. }
  destruct (filter _ (concat mask)); [inversion Hin | discriminate].
Qed.

(** With no pixel marked, the packaging loops change nothing. *)
Lemma hre_packaging_skips (mask : list (list Z)) weights s :
  rectangular mask -> countNonZero mask = 0%nat ->
  for_each (seq 0 (px_rows mask)) (fun i =>
    for_each (seq 0 (px_cols mask)) (fun j =>
      p ← px_get mask i j;
      if decide (p <> 0%Z) then hre_pack weights i j else mret tt)) s
  = (Ok tt, s).
Proof.
  intros Hrect Hz. apply for_each_skip. intros i Hi.
  apply elem_of_seq in Hi as [_ Hi]. cbn in Hi.
  destruct (lookup_lt_is_Some_2 mask i Hi) as [row Hrow].
  apply for_each_skip. intros j Hj.
  apply elem_of_seq in Hj as [_ Hj]. cbn in Hj.
  rewrite <- (Hrect row) in Hj by (eapply list_elem_of_lookup_2; eauto).
  destruct (lookup_lt_is_Some_2 row j Hj) as [p Hp].
  pose proof (countNonZero_zero_lookup mask i j row p Hz Hrow Hp) as ->.
  unfold px_get. exec_unfold. rewrite Hrow, Hp. reflexivity.
Qed.

(** C4 (code bug).  [hyper_renorm_ellipse] copies the reply of the MATLAB
    routine into [std::vector<double> ellipse_param(5)]: every vector it
    returns has 5 elements, never the 6 coefficients A..F.  With one marked
    pixel and a reply of six coefficients, the sixth is written to
    [ellipse_param[5]], outside the vector. *)
Theorem hyper_renorm_ellipse_returns_five :
  (forall mask weights f0 thresh max_iter s v,
      fst (hyper_renorm_ellipse feval mask weights f0 thresh max_iter s) = Ok v ->
      length v = 5%nat)
  /\ (forall s : mstate hre_vars,
         fst (hyper_renorm_ellipse (fun _ => inr [[1; 0; 1; 0; 0; -1]])
                [[1%Z]] [[1]] 1 1 10 s) = OutOfRange 5).
Proof.
  split.
  - intros mask weights f0 thresh max_iter s v H.
    destruct (hyper_renorm_ellipse feval mask weights f0 thresh max_iter s) as [r s'] eqn:E.
    cbn in H. subst r. eapply hyper_renorm_ellipse_length; eauto.
  - intros s. reflexivity.
Qed.

(** C7 (corrected).  [hyper_renorm_ellipse] has no check at its entry.  On
    a mask with no marked pixel, the connection to the engine taken to
    succeed, it calls the MATLAB routine once, with empty position and
    weight arrays.  An exception of the routine ends the call; a reply is
    copied as for any other mask, into the 5 entries of [ellipse_param] or,
    with more than 5 values, up to the write of [ellipse_param[5]] outside
    the vector. *)
Theorem empty_mask_is_passed_to_the_fit mask weights f0 thresh max_iter s :
  rectangular mask -> countNonZero mask = 0%nat ->
  let c := hre_call 0 [] [] [] f0 max_iter thresh in
  let r := hyper_renorm_ellipse feval mask weights f0 thresh max_iter s in
  calls (snd r) = calls s ++ [c]
  /\ match feval c with
     | inl msg => fst r = Raised msg
     | inr outs =>
         let el := default [] (head outs) in
         fst r = if decide (length el <= 5)%nat
                 then Ok (el ++ replicate (5 - length el) 0)
                 else OutOfRange 5
     end.
Proof.
  intros Hrect Hz c r. subst r. unfold hyper_renorm_ellipse.
  rewrite Hz. destruct s as [v0 cs].
  erewrite exec_bind_ok by reflexivity.
  erewrite exec_bind_ok by (apply hre_packaging_skips; assumption).
  erewrite exec_bind_ok by reflexivity.
  cbn [vars hre_x hre_y hre_w replicate]. fold c.
  destruct (feval c) as [msg|outs] eqn:Hf.
  { erewrite exec_bind_raised by (unfold engine_feval; rewrite Hf; reflexivity).
    split; reflexivity. }
  erewrite exec_bind_ok by (unfold engine_feval; rewrite Hf; reflexivity).
  erewrite exec_bind_ok by reflexivity.
  cbn [vars calls hre_x hre_y hre_w].
  set (el := default [] (head outs)).
  pose proof (for_each_hre_store el [] [] [] 0 (replicate 5 0) (cs ++ [c])) as Hcopy.
  cbn [length replicate Nat.add] in Hcopy.
  destruct (decide (length el <= 5)%nat) as [Hle|Hgt].
  - erewrite exec_bind_ok by (apply Hcopy; lia).
    split; [reflexivity|]. cbn. f_equal.
    change [0; 0; 0; 0; 0] with (replicate 5 0).
    rewrite drop_replicate. reflexivity.
  - erewrite exec_bind_fault by (apply Hcopy; lia).
    split; reflexivity.
Qed.

End HyperRenormFacts.

(** A mask of one unmarked pixel, and an engine that replies five numbers:
    the routine is called and its reply returned. *)
Lemma empty_mask_is_passed_to_the_fit_witness :
  rectangular [[0%Z]] /\ countNonZero [[0%Z]] = 0%nat
  /\ calls (snd (hyper_renorm_ellipse (fun _ => inr [[1; 0; 1; 0; 0]%R])
                   [[0%Z]] [[1%R]] 1 1 10 (mkMstate hre_init [])))
     = [hre_call 0 [] [] [] 1 10 1].
Proof.
  assert (Hrect : rectangular [[0%Z]]).
  { intros row Hrow. apply list_elem_of_singleton in Hrow. subst. reflexivity. }
  split; [exact Hrect|]. split; [reflexivity|].
  exact (proj1 (empty_mask_is_passed_to_the_fit (fun _ => inr [[1; 0; 1; 0; 0]%R])
                  [[0%Z]] [[1%R]] 1%R 1%R 10%Z (mkMstate hre_init []) Hrect eq_refl)).
Defined.

(** C7, the claim as stated fails: the mask [[0]] has no marked pixel, yet
    the call returns normally, after the fitting routine has been called. *)
Lemma empty_mask_not_rejected :
  let r := hyper_renorm_ellipse (fun _ => inr [[1; 0; 1; 0; 0]%R])
             [[0%Z]] [[1%R]] 1 1 10 (mkMstate hre_init []) in
  countNonZero [[0%Z]] = 0%nat
  /\ fst r = Ok [1; 0; 1; 0; 0]%R
  /\ calls (snd r) = [hre_call 0 [] [] [] 1 10 1]
  /\ ~ (exists msg, fst r = Raised msg /\ calls (snd r) = []).
Proof.
  cbv zeta. split; [reflexivity|]. split; [reflexivity|]. split; [reflexivity|].
  intros (msg & Hr & _). discriminate Hr.
Qed.

(** One marked pixel and a reply of five numbers: the five are returned. *)
Lemma hyper_renorm_ellipse_returns_five_witness :
  fst (hyper_renorm_ellipse (fun _ => inr [[1; 0; 1; 0; 0]%R])
         [[1%Z]] [[1%R]] 1 1 10 (mkMstate hre_init [])) = Ok [1; 0; 1; 0; 0]%R
  /\ length [1; 0; 1; 0; 0]%R = 5%nat.
Proof.
  split; [reflexivity|].
  exact (proj1 (hyper_renorm_ellipse_returns_five (fun _ => inr [[1; 0; 1; 0; 0]%R]))
           [[1%Z]] [[1%R]] 1%R 1%R 10%Z (mkMstate hre_init []) [1; 0; 1; 0; 0]%R eq_refl).
Defined.

(** * The clustering routine: properties *)

Section WeightedKmeansFacts.

Open Scope R_scope.

Variable feval : call -> string + list (list R).

Lemma wk_label_labels_length ci i s s' :
  wk_label ci i s = (Ok tt, s') ->
  length (labels (vars s')) = length (labels (vars s))
  /\ centers (vars s') = centers (vars s).
Proof.
  unfold wk_label. intros H.
  apply exec_bind_inv_ok in H as (ci0 & s1 & H1 & H). apply vec_get_inv in H1 as [_ ->].
  apply exec_bind_inv_ok in H as (c & s2 & H2 & H). apply array_get_inv in H2 as [_ ->].
  apply exec_bind_inv_ok in H as (v & s3 & H3 & H). apply get_vars_inv in H3 as [-> ->].
  apply exec_bind_inv_ok in H as (l & s4 & H4 & H). apply vec_set_inv in H4 as (_ & -> & ->).
  unfold set_labels, modify_vars in H. inversion H; subst; cbn.
  split; [apply length_insert | reflexivity].
Qed.

(** The first write of a centre, [centers[0][0] = ...], never ends
    normally while [centers[0]] is empty. *)
Lemma wk_center_empty_row ci k s s' :
  centers (vars s) !! 0%nat = Some [] -> wk_center ci k 0 0 s <> (Ok tt, s').
Proof.
  intros Hrow H. unfold wk_center in H.
  apply exec_bind_inv_ok in H as (ci1 & s1 & H1 & H). apply vec_get_inv in H1 as [_ ->].
  apply exec_bind_inv_ok in H as (c & s2 & H2 & H). apply array_get_inv in H2 as [_ ->].
  apply exec_bind_inv_ok in H as (v & s3 & H3 & H). apply get_vars_inv in H3 as [-> ->].
  apply exec_bind_inv_ok in H as (row & s4 & H4 & H). apply vec_get_inv in H4 as [H4 ->].
  rewrite Hrow in H4. inversion H4; subst row.
  apply exec_bind_inv_ok in H as (row' & s5 & H5 & H). apply vec_set_inv in H5 as (H5 & _).
  cbn in H5. lia.
Qed.

(** A normal return of [weighted_kmeans] happens only for [k = 0] or for a
    first variable without samples; [labels] then has one entry per
    variable ([data.size()]), and [centers] is [k] empty vectors. *)
Lemma weighted_kmeans_normal_return data weights k s s' :
  weighted_kmeans feval data weights k s = (Ok tt, s') ->
  length (labels (vars s')) = length data
  /\ centers (vars s') = replicate (Z.to_nat k) []
  /\ (k = 0%Z \/ data !! 0%nat = Some []).
Proof.
  unfold weighted_kmeans. intros H.
  apply exec_bind_inv_ok in H as ([] & s1 & _ & H).
  apply exec_bind_inv_ok in H as (v & s2 & H2 & H). apply get_vars_inv in H2 as [-> ->].
  apply exec_bind_inv_ok in H as (data0 & s3 & H3 & H). apply vec_get_inv in H3 as [Hd0 ->].
  apply exec_bind_inv_ok in H as (ci & s4 & _ & H).
  apply exec_bind_inv_ok in H as ([] & s5 & H5 & H).
  unfold set_labels, modify_vars in H5. inversion H5; subst s5; clear H5.
  apply exec_bind_inv_ok in H as ([] & s6 & H6 & H).
  apply (for_each_preserves
           (fun s => length (labels (vars s)) = length data)) in H6;
    [| intros i t t' Hb Ht; apply wk_label_labels_length in Hb as [Hb _]; congruence
     | cbn; apply length_replicate ].
  apply exec_bind_inv_ok in H as ([] & s7 & H7 & H).
  destruct (decide (k < 0)%Z) as [Hneg|Hk]; [discriminate H7|].
  inversion H7; subst s7; clear H7.
  apply exec_bind_inv_ok in H as ([] & s8 & H8 & H).
  unfold set_centers, modify_vars in H8. inversion H8; subst s8; clear H8.
  set (s8 := mkMstate _ _) in H.
  assert (Hdeg : k = 0%Z \/ data0 = []).
  { destruct (Z.to_nat k) as [|n] eqn:Hn; [left; lia|]. right.
    destruct data0 as [|x data0']; [reflexivity|exfalso].
    cbn [seq for_each] in H.
    apply exec_bind_inv_ok in H as ([] & t1 & Hb & _).
    apply exec_bind_inv_ok in Hb as (d0 & t2 & Hb1 & Hb). apply vec_get_inv in Hb1 as [Hb1 ->].
    rewrite Hd0 in Hb1. inversion Hb1; subst d0.
    cbn [length seq for_each] in Hb.
    apply exec_bind_inv_ok in Hb as ([] & t3 & Hc & _).
    eapply wk_center_empty_row; [|exact Hc]. subst s8. cbn. reflexivity. }
  assert (Hs' : s' = s8).
  { assert (Hskip : for_each (seq 0 (Z.to_nat k)) (fun i =>
              data1 ← vec_get data 0;
              for_each (seq 0 (length data1)) (fun j =>
                wk_center ci (Z.to_nat k) i j)) s8 = (Ok tt, s8)).
    { destruct Hdeg as [-> | ->]; [reflexivity|].
      apply for_each_skip. intros i _.
      erewrite exec_bind_ok by (unfold vec_get; rewrite Hd0; reflexivity).
      reflexivity. }
    rewrite Hskip in H. now inversion H. }
  subst s'. subst s8. cbn. repeat split.
  - exact H6.
  - destruct Hdeg as [-> | ->]; [now left | now right].
Qed.

(** The call in [get_ellipses]: one variable with at least one sample, and
    [k > 0].  When the engine replies with labels and centres, the run stops
    at the write [centers[0][0]], with one label stored. *)
Lemma weighted_kmeans_one_variable d weights k s c0 l0 c1 l1 rest :
  d <> [] -> (0 < k)%Z ->
  feval (fkmeans_call (length d) 1 d k weights) = inr ((c0 :: l0) :: (c1 :: l1) :: rest) ->
  weighted_kmeans feval [d] weights k s
  = (OutOfRange 0,
     mkMstate (mkWk (replicate (Z.to_nat k) []) [double_to_int c0] d)
              (calls s ++ [fkmeans_call (length d) 1 d k weights])).
Proof.
  intros Hd Hk Hf. unfold weighted_kmeans.
  destruct d as [|x d']; [congruence|].
  destruct (Z.to_nat k) as [|n] eqn:Hn; [lia|].
  cbn [length].
  destruct (decide (1 > 1)%nat) as [Hgt|_]; [lia|].
  exec_unfold. cbv [set_data1D modify_vars get_vars engine_feval]. cbn.
  cbn in Hf. rewrite Hf.
  cbn.
  destruct (decide (k < 0)%Z); [lia|].
  cbn. reflexivity.
Qed.

(** C6 (code bug).  [weighted_kmeans] sizes [labels] by [data.size()], the
    number of variables, not by the number of samples, and it writes the
    coordinates of the centres into [k] empty vectors.  So it returns
    normally only when [k = 0] or there is no sample; for three samples of
    one variable and [k = 3] it stops at the write [centers[0][0]] with a
    single label stored. *)
Theorem weighted_kmeans_labels_per_variable :
  (forall data weights k s,
      fst (weighted_kmeans feval data weights k s) = Ok tt ->
      let s' := snd (weighted_kmeans feval data weights k s) in
      length (labels (vars s')) = length data
      /\ centers (vars s') = replicate (Z.to_nat k) []
      /\ (k = 0%Z \/ data !! 0%nat = Some []))
  /\ (forall s,
         weighted_kmeans (fun _ => inr [[0; 1; 2]; [-1; 0; 1]; [0; 0; 0]])
           [[-1; 0; 1]] [1; 1; 1] 3 s
         = (OutOfRange 0,
            mkMstate (mkWk [[]; []; []] [double_to_int 0] [-1; 0; 1])
                     (calls s ++ [fkmeans_call 3 1 [-1; 0; 1] 3 [1; 1; 1]]))).
Proof.
  split.
  - intros data weights k s H s'. subst s'.
    destruct (weighted_kmeans feval data weights k s) as [r s'] eqn:E.
    cbn in H. subst r. eapply weighted_kmeans_normal_return; eauto.
  - intros s. reflexivity.
Qed.

End WeightedKmeansFacts.

(** No cluster asked for, one variable with one sample: a normal return. *)
Lemma weighted_kmeans_labels_per_variable_witness :
  fst (weighted_kmeans (fun _ => inr [[0]%R]) [[7%R]] [1%R] 0 (mkMstate (mkWk [] [] []) []))
  = Ok tt
  /\ length (labels (vars (snd (weighted_kmeans (fun _ => inr [[0]%R]) [[7%R]] [1%R] 0
                                  (mkMstate (mkWk [] [] []) []))))) = 1%nat.
Proof.
  split; [reflexivity|].
  exact (proj1 (proj1 (weighted_kmeans_labels_per_variable (fun _ => inr [[0]%R]))
                  [[7%R]] [1%R] 0%Z (mkMstate (mkWk [] [] []) []) eq_refl)).
Defined.

(** * The mask of the second fit: properties *)

Section RefinedMaskFacts.

Open Scope R_scope.

#[local] Instance Rle_transitive : Transitive Rle := Rle_trans.
#[local] Instance Rle_total : Total Rle.
Proof. intros x y. destruct (Rle_lt_dec x y); [left|right]; lra. Qed.

(** After [std::sort], the first of three values is the least and the last
    the greatest. *)
Lemma sort3_bounds (c0 c1 c2 : R) :
  exists s0 s1 s2,
    merge_sort Rle [c0; c1; c2] = [s0; s1; s2]
    /\ forall c, c ∈ [c0; c1; c2] -> s0 <= c <= s2.
Proof.
  pose proof (merge_sort_Permutation Rle [c0; c1; c2]) as Hp.
  pose proof (StronglySorted_merge_sort Rle [c0; c1; c2]) as Hs.
  pose proof (Permutation_length Hp) as Hl.
  destruct (merge_sort Rle [c0; c1; c2]) as [|s0 [|s1 [|s2 [|? ?]]]]; try discriminate Hl.
  exists s0, s1, s2. split; [reflexivity|].
  intros c Hc. rewrite <- Hp in Hc.
  apply StronglySorted_inv in Hs as [Hs H0].
  apply StronglySorted_inv in Hs as [Hs H1].
  rewrite Forall_forall in H0, H1.
  assert (H12 : s1 <= s2) by (apply H1; now left).
  assert (H01 : s0 <= s1) by (apply H0; now left).
  apply list_elem_of_In in Hc. destruct Hc as [<-|[<-|[<-|[]]]]; lra.
Qed.

(** A marked pixel at [(y, x)] has fewer marked pixels before it, in row
    order, than the mask has in all. *)
Lemma marked_pixel_rank (mask : list (list Z)) y x row p :
  mask !! y = Some row -> row !! x = Some p -> p <> 0%Z ->
  (countNonZero (take y mask) + countNonZero_row (take x row) < countNonZero mask)%nat.
Proof.
  intros Hrow Hp Hnz.
  pose proof (f_equal countNonZero (take_drop_middle mask y row Hrow)) as Hm.
  change (row :: drop (S y) mask) with ([row] ++ drop (S y) mask) in Hm.
  rewrite !countNonZero_app, countNonZero_single in Hm.
  pose proof (f_equal countNonZero_row (take_drop_middle row x p Hp)) as Hr.
  change (p :: drop (S x) row) with ([p] ++ drop (S x) row) in Hr.
  rewrite !countNonZero_row_app in Hr.
  assert (countNonZero_row [p] = 1%nat).
  { unfold countNonZero_row. cbn. rewrite decide_True by assumption. reflexivity. }
  lia.
Qed.

Lemma center_of_label_ok {St : Type} c0 c1 c2 c00 c10 c20 (labels : list Z) k l (t : St) :
  c0 !! 0%nat = Some c00 -> c1 !! 0%nat = Some c10 -> c2 !! 0%nat = Some c20 ->
  labels !! k = Some l -> (0 <= l < 3)%Z ->
  exists ck, center_of_label [c0; c1; c2] labels k t = (Ok ck, t) /\ ck ∈ [c00; c10; c20].
Proof.
  intros H0 H1 H2 Hl Hr. unfold center_of_label.
  erewrite exec_bind_ok by (unfold vec_get; rewrite Hl; reflexivity).
  rewrite decide_False by lia.
  erewrite exec_bind_ok by reflexivity.
  assert (Hc : l = 0%Z \/ l = 1%Z \/ l = 2%Z) by lia.
  destruct Hc as [-> | [-> | ->]]; cbn [Z.to_nat Pos.to_nat Pos.iter_op Nat.add].
  - exists c00. split; [|apply list_elem_of_In; cbn; auto].
    erewrite exec_bind_ok by reflexivity. unfold vec_get. now rewrite H0.
  - exists c10. split; [|apply list_elem_of_In; cbn; auto].
    erewrite exec_bind_ok by reflexivity. unfold vec_get. now rewrite H1.
  - exists c20. split; [|apply list_elem_of_In; cbn; auto].
    erewrite exec_bind_ok by reflexivity. unfold vec_get. now rewrite H2.
Qed.

Lemma take_S_map_kept (row : list Z) x p n :
  row !! x = Some p -> 
  map kept (take x row) ++ kept p :: replicate n 0%Z
  = map kept (take (S x) row) ++ replicate n 0%Z.
Proof.
  intros Hp. rewrite (take_S_r _ _ _ Hp), map_app, <- app_assoc. reflexivity.
Qed.

(** The filter keeps every marked pixel: the clustering centre compared
    with the limits is one of the three centres the limits are the least
    and the greatest of. *)
Lemma refined_mask_is_mask (mask : list (list Z)) c0 c1 c2 c00 c10 c20 labels v0 :
  rectangular mask ->
  c0 !! 0%nat = Some c00 -> c1 !! 0%nat = Some c10 -> c2 !! 0%nat = Some c20 ->
  (countNonZero mask <= length labels)%nat ->
  Forall (fun l => 0 <= l < 3)%Z labels ->
  get_ellipses_refined_mask mask [c0; c1; c2] labels v0
  = (Ok (map (map kept) mask), mkRm (map (map kept) mask) (countNonZero mask)).
Proof.
  intros Hrect H0 H1 H2 Hlen Hlab. unfold get_ellipses_refined_mask.
  erewrite exec_bind_ok by reflexivity.
  erewrite exec_bind_ok by (unfold vec_get; rewrite H0; reflexivity).
  erewrite exec_bind_ok by reflexivity.
  erewrite exec_bind_ok by (unfold vec_get; rewrite H1; reflexivity).
  erewrite exec_bind_ok by reflexivity.
  erewrite exec_bind_ok by (unfold vec_get; rewrite H2; reflexivity).
  destruct (sort3_bounds c00 c10 c20) as (s0 & s1 & s2 & -> & Hb).
  erewrite exec_bind_ok by reflexivity.
  erewrite exec_bind_ok by reflexivity.
  erewrite exec_bind_ok by reflexivity.
  set (rows := px_rows mask). set (cols := px_cols mask).
  set (zr := replicate cols 0%Z).
  set (body := fun y : nat => for_each _ _).
  destruct (for_each_seq_inv
              (fun y s => rm_k s = countNonZero (take y mask)
                          /\ refined_mask s
                             = map (map kept) (take y mask) ++ replicate (rows - y) zr)
              body rows 0 (mkRm (replicate rows zr) 0)) as (s' & Hrun & Hk & Hrm).
  { cbn. rewrite Nat.sub_0_r. split; reflexivity. }
  { intros y t [_ Hy] [Hk Hrm]. cbn in Hy.
    destruct (lookup_lt_is_Some_2 mask y Hy) as [row Hrow].
    assert (Hrl : length row = cols) by (apply Hrect; eapply list_elem_of_lookup_2; eauto).
    subst body. cbv beta.
    destruct (for_each_seq_inv
                (fun x s => rm_k s = (countNonZero (take y mask)
                                      + countNonZero_row (take x row))%nat
                            /\ refined_mask s
                               = map (map kept) (take y mask)
                                 ++ (map kept (take x row) ++ replicate (cols - x) 0%Z)
                                 :: replicate (rows - S y) zr)
                (fun x : nat =>
                   p ← px_get mask y x;
                   if decide (p <> 0%Z) then
                     v ← get;
                     ck ← center_of_label [c0; c1; c2] labels (rm_k v);
                     (if bool_decide (ck >= s0) then
                        ck' ← center_of_label [c0; c1; c2] labels (rm_k v);
                        if bool_decide (ck' <= s2) then rm_mark y x else mret tt
                      else mret tt);;
                     modify (fun v => mkRm (refined_mask v) (S (rm_k v)))
                   else mret tt)
                cols 0 t) as (t' & Hin & Hk' & Hrm').
    { cbn. rewrite Nat.sub_0_r, Nat.add_0_r. split; [exact Hk|].
      rewrite Hrm. replace (rows - y)%nat with (S (rows - S y)) by lia. reflexivity. }
    { intros x u [_ Hx] [Hku Hrmu]. cbn in Hx.
      assert (Hxl : (x < length row)%nat) by lia.
      destruct (lookup_lt_is_Some_2 row x Hxl) as [p Hp].
      erewrite exec_bind_ok by (unfold px_get; erewrite exec_bind_ok
                                  by (unfold vec_get; rewrite Hrow; reflexivity);
                                unfold vec_get; rewrite Hp; reflexivity).
      assert (Hcur : refined_mask u !! y
                     = Some (map kept (take x row) ++ replicate (cols - x) 0%Z)).
      { rewrite Hrmu. apply list_lookup_middle, length_map_take. exact (Nat.lt_le_incl _ _ Hy). }
      destruct (decide (p <> 0%Z)) as [Hnz|Hz].
      - pose proof (marked_pixel_rank mask y x row p Hrow Hp Hnz) as Hrank.
        assert (Hkl : (rm_k u < length labels)%nat) by lia.
        destruct (lookup_lt_is_Some_2 labels _ Hkl) as [l Hl].
        assert (Hlr : (0 <= l < 3)%Z).
        { rewrite Forall_forall in Hlab. apply Hlab. eapply list_elem_of_lookup_2; eauto. }
        destruct (center_of_label_ok c0 c1 c2 c00 c10 c20 labels (rm_k u) l u
                    H0 H1 H2 Hl Hlr) as (ck & Hck & Hmem).
        destruct (Hb ck Hmem) as [Hlo Hhi].
        erewrite exec_bind_ok by reflexivity.
        erewrite exec_bind_ok by exact Hck.
        rewrite bool_decide_eq_true_2 by lra.
        erewrite (exec_bind_ok (_ ≫= _)).
        2:{ erewrite exec_bind_ok by exact Hck.
            rewrite bool_decide_eq_true_2 by lra.
            unfold rm_mark.
            erewrite exec_bind_ok by reflexivity.
            erewrite exec_bind_ok by (unfold vec_get; rewrite Hcur; reflexivity).
            erewrite exec_bind_ok.
            2:{ unfold vec_set. rewrite decide_True; [reflexivity|].
                rewrite length_app, length_map, length_take, length_replicate. lia. }
            reflexivity. }
        eexists. split; [reflexivity|]. cbn. split.
        + rewrite Hku. rewrite (take_S_r _ _ _ Hp), countNonZero_row_app.
          unfold countNonZero_row at 3. cbn. rewrite decide_True by assumption. cbn. lia.
        + rewrite Hrmu.
          rewrite insert_middle by (apply length_map_take; exact (Nat.lt_le_incl _ _ Hy)).
          f_equal. f_equal.
          replace (cols - x)%nat with (S (cols - S x)) by lia. cbn [replicate].
          rewrite insert_middle by (apply length_map_take; lia).
          rewrite <- (take_S_map_kept row x p) by assumption.
          replace (kept p) with 1%Z by (unfold kept; now rewrite decide_True).
          reflexivity.
      - eexists. split; [reflexivity|]. split.
        + rewrite Hku. rewrite (take_S_r _ _ _ Hp), countNonZero_row_app.
          unfold countNonZero_row at 3. cbn. rewrite decide_False by assumption. cbn. lia.
        + rewrite Hrmu. f_equal. f_equal.
          replace (cols - x)%nat with (S (cols - S x)) by lia. cbn.
          rewrite <- (take_S_map_kept row x p) by assumption.
          replace (kept p) with 0%Z by (unfold kept; now rewrite decide_False).
          reflexivity. }
    exists t'. split; [exact Hin|]. cbn in Hk', Hrm'. split.
    - rewrite Hk'. rewrite (take_S_r _ _ _ Hrow), countNonZero_app, countNonZero_single.
      rewrite <- Hrl, firstn_all. reflexivity.
    - rewrite Hrm'. rewrite (take_S_r _ _ _ Hrow), map_app, <- app_assoc. cbn.
      rewrite <- Hrl, firstn_all, Nat.sub_diag. cbn. rewrite app_nil_r. reflexivity. }
  cbn in Hk, Hrm. subst rows. unfold px_rows in *.
  rewrite firstn_all in Hk, Hrm. rewrite Nat.sub_diag in Hrm. cbn in Hrm.
  rewrite app_nil_r in Hrm.
  erewrite exec_bind_ok by exact Hrun.
  destruct s' as [rm k]. cbn in *. subst. reflexivity.
Qed.

(** C3 (code bug).  The test of the filter compares the centre of the
    pixel's own cluster, [centers[labels[k]][0]], with the least and the
    greatest of the three centres, so it holds for every marked pixel:
    [refined_mask] marks exactly the pixels [annulus_mask] marks, and the
    second fit runs on all of them, the lowest and the highest cluster
    included. *)
Theorem refit_keeps_every_marked_pixel feval (mask : list (list Z)) annulus
  c0 c1 c2 c00 c10 c20 labels f0 thresh max_iter v0 s :
  rectangular mask ->
  c0 !! 0%nat = Some c00 -> c1 !! 0%nat = Some c10 -> c2 !! 0%nat = Some c20 ->
  (countNonZero mask <= length labels)%nat ->
  Forall (fun l => 0 <= l < 3)%Z labels ->
  fst (get_ellipses_refined_mask mask [c0; c1; c2] labels v0) = Ok (map (map kept) mask)
  /\ get_ellipses_refit feval mask annulus [c0; c1; c2] labels f0 thresh max_iter s
     = hyper_renorm_ellipse feval (map (map kept) mask) annulus f0 thresh max_iter s.
Proof.
  intros Hrect H0 H1 H2 Hlen Hlab. split.
  - now rewrite (refined_mask_is_mask mask c0 c1 c2 c00 c10 c20 labels v0).
  - unfold get_ellipses_refit.
    now rewrite (refined_mask_is_mask mask c0 c1 c2 c00 c10 c20 labels _).
Qed.

(** Three marked pixels at distances -1, 0 and 1, one in each cluster, the
    centres being -1, 0 and 1: all three are kept. *)
Lemma refit_keeps_every_marked_pixel_witness :
  fst (get_ellipses_refined_mask [[1; 1; 1]%Z] [[-1]; [0]; [1]] [0; 1; 2]%Z (mkRm [] 0))
  = Ok [[1; 1; 1]%Z].
Proof.
  assert (Hrect : rectangular [[1; 1; 1]%Z]).
  { intros row Hrow. apply list_elem_of_singleton in Hrow. subst. reflexivity. }
  assert (Hlab : Forall (fun l => 0 <= l < 3)%Z [0; 1; 2]%Z).
  { repeat constructor; lia. }
  exact (proj1 (refit_keeps_every_marked_pixel (fun _ => inr []) [[1; 1; 1]%Z] [[1; 1; 1]]
                  [-1] [0] [1] (-1) 0 1 [0; 1; 2]%Z 1 1 10%Z (mkRm [] 0)
                  (mkMstate hre_init []) Hrect eq_refl eq_refl eq_refl
                  (le_n 3) Hlab)).
Defined.

End RefinedMaskFacts.

(** * The annular mask: properties *)

Section AnnularMaskFacts.

Lemma Mat_write_fresh (sigma : store) l (px : list (list Z)) n i j row v :
  px !! i = Some row -> (j < length row)%nat ->
  Mat_write (mkMat (Some l) n n) i j v (<[l := px]> sigma)
  = (Ok tt, <[l := <[i := <[j := v]> row]> px]> sigma).
Proof.
  intros Hrow Hj. unfold Mat_write. cbn [data].
  rewrite lookup_insert_eq, Hrow, decide_True by assumption.
  now rewrite insert_insert_eq.
Qed.

(** The loops of [create_annular_mask], with the test on the distance
    itself and each round writing to its own row, fill a zero matrix with
    [annulus_pixels]. *)
Lemma annular_mask_loops (sigma : store) l size inner_rad outer_rad val :
  let n := Z.to_nat size in
  for_each (seq 0 n) (fun i =>
    for_each (seq 0 n) (fun j =>
      if annulus_test size inner_rad outer_rad i j
      then Mat_write (mkMat (Some l) n n) i j val
      else mret tt))
    (<[l := replicate n (replicate n 0%Z)]> sigma)
  = (Ok tt, <[l := annulus_pixels size inner_rad outer_rad val]> sigma).
Proof.
  intros n.
  set (pix := fun i j => if annulus_test size inner_rad outer_rad i j then val else 0%Z).
  set (zr := replicate n 0%Z).
  destruct (for_each_seq_inv
    (fun i (s : store) =>
       s = <[l := map (fun i => map (pix i) (seq 0 n)) (seq 0 i) ++ replicate (n - i) zr]> sigma)
    (fun i =>
       for_each (seq 0 n) (fun j =>
         if annulus_test size inner_rad outer_rad i j
         then Mat_write (mkMat (Some l) n n) i j val
         else mret tt))
    n 0 (<[l := replicate n zr]> sigma)) as (s' & Hrun & Hs').
  { cbn. now rewrite Nat.sub_0_r. }
  { intros i t [_ Hi] ->. cbn in Hi.
    destruct (for_each_seq_inv
      (fun j (s : store) =>
         s = <[l := map (fun i => map (pix i) (seq 0 n)) (seq 0 i)
                    ++ (map (pix i) (seq 0 j) ++ replicate (n - j) 0%Z)
                    :: replicate (n - S i) zr]> sigma)
      (fun j =>
         if annulus_test size inner_rad outer_rad i j
         then Mat_write (mkMat (Some l) n n) i j val
         else mret tt)
      n 0 (<[l := map (fun i => map (pix i) (seq 0 n)) (seq 0 i)
                  ++ replicate (n - i) zr]> sigma)) as (t' & Hin & Ht').
    { cbn. rewrite Nat.sub_0_r. replace (n - i)%nat with (S (n - S i)) by lia. reflexivity. }
    { intros j u [_ Hj] ->. cbn in Hj.
      assert (Hnext : map (pix i) (seq 0 j) ++ pix i j :: replicate (n - S j) 0%Z
                      = map (pix i) (seq 0 (S j)) ++ replicate (n - S j) 0%Z).
      { now rewrite seq_S_map, <- app_assoc. }
      replace (n - j)%nat with (S (n - S j)) by lia. cbn [replicate].
      rewrite <- Hnext.
      change (pix i j) with (if annulus_test size inner_rad outer_rad i j then val else 0%Z).
      destruct (annulus_test size inner_rad outer_rad i j) eqn:Ht.
      - eexists. split.
        + apply Mat_write_fresh.
          * apply list_lookup_middle. now rewrite length_map, length_seq.
          * rewrite length_app, length_map, length_seq. cbn. rewrite length_replicate. lia.
        + rewrite insert_middle by now rewrite length_map, length_seq.
          rewrite insert_middle by now rewrite length_map, length_seq.
          reflexivity.
      - eexists. split; reflexivity. }
    exists t'. split; [exact Hin|]. rewrite Ht'. change (0 + n)%nat with n.
    rewrite Nat.sub_diag. cbn [replicate].
    rewrite app_nil_r, seq_S_map, <- app_assoc. reflexivity. }
  rewrite Hrun, Hs'. change (0 + n)%nat with n.
  rewrite Nat.sub_diag. cbn [replicate]. rewrite app_nil_r. reflexivity.
Qed.

(** The comparison of the [float] distance with a radius decides as the
    comparison of the distance itself, for radii up to 2047. *)
Lemma float_ge_exact fl (d2 r : Z) :
  float_conversion fl -> (0 <= d2)%Z -> (-4096 <= r <= 2048)%Z ->
  bool_decide (fl (sqrt (IZR d2)) >= fl (IZR r))%R = bool_decide (sqrt (IZR d2) >= IZR r)%R.
Proof.
  intros [Hmono Hgrid] Hd Hr.
  assert (Hfr : fl (IZR r) = IZR r).
  { replace (IZR r) with (IZR (4096 * r) / 4096)%R by (rewrite mult_IZR; field).
    apply Hgrid. lia. }
  apply bool_decide_ext. rewrite Hfr. split; intros H.
  - destruct (Rle_lt_dec (IZR r) (sqrt (IZR d2))) as [Hle|Hlt]; [lra|exfalso].
    pose proof (sqrt_pos (IZR d2)) as Hs.
    assert (Hrpos : (0 < r)%Z) by (apply lt_IZR; lra).
    assert (Hd2 : (d2 <= r * r - 1)%Z).
    { assert (Hsq : (IZR d2 < IZR r * IZR r)%R).
      { rewrite <- (sqrt_sqrt (IZR d2)) by (apply IZR_le; lia). nra. }
      rewrite <- mult_IZR in Hsq. apply lt_IZR in Hsq. lia. }
    assert (Hr1 : (1 <= IZR r <= 2048)%R) by (split; apply IZR_le; lia).
    assert (Hbound : (sqrt (IZR d2) <= IZR r - 1 / 4096)%R).
    { rewrite <- (sqrt_square (IZR r - 1 / 4096)) by lra.
      apply sqrt_le_1_alt. apply IZR_le in Hd2. rewrite minus_IZR, mult_IZR in Hd2. nra. }
    assert (Hfb : fl (IZR r - 1 / 4096)%R = (IZR r - 1 / 4096)%R).
    { replace (IZR r - 1 / 4096)%R with (IZR (4096 * r - 1) / 4096)%R
        by (rewrite minus_IZR, mult_IZR; field).
      apply Hgrid. lia. }
    pose proof (Hmono _ _ Hbound) as Hm. rewrite Hfb in Hm. lra.
  - apply Rle_ge. rewrite <- Hfr. apply Hmono. lra.
Qed.

Lemma float_le_exact fl (d2 r : Z) :
  float_conversion fl -> (0 <= d2)%Z -> (-4096 <= r <= 2047)%Z ->
  bool_decide (fl (sqrt (IZR d2)) <= fl (IZR r))%R = bool_decide (sqrt (IZR d2) <= IZR r)%R.
Proof.
  intros [Hmono Hgrid] Hd Hr.
  assert (Hfr : fl (IZR r) = IZR r).
  { replace (IZR r) with (IZR (4096 * r) / 4096)%R by (rewrite mult_IZR; field).
    apply Hgrid. lia. }
  assert (Hf0 : fl 0%R = 0%R).
  { replace 0%R with (IZR 0 / 4096)%R at 1 2 by (unfold Rdiv; ring). apply Hgrid. lia. }
  pose proof (sqrt_pos (IZR d2)) as Hs.
  apply bool_decide_ext. rewrite Hfr. split; intros H.
  - destruct (Rle_lt_dec (sqrt (IZR d2)) (IZR r)) as [Hle|Hlt]; [lra|exfalso].
    destruct (Z_lt_le_dec r 0) as [Hneg|Hnn].
    + pose proof (Hmono _ _ Hs) as Hm. rewrite Hf0 in Hm.
      apply IZR_lt in Hneg. lra.
    + assert (Hr0 : (0 <= IZR r <= 2047)%R) by (split; apply IZR_le; lia).
      assert (Hd2 : (r * r + 1 <= d2)%Z).
      { assert (Hsq : (IZR r * IZR r < IZR d2)%R).
        { rewrite <- (sqrt_sqrt (IZR d2)) by (apply IZR_le; lia). nra. }
        rewrite <- mult_IZR in Hsq. apply lt_IZR in Hsq. lia. }
      assert (Hbound : (IZR r + 1 / 4096 <= sqrt (IZR d2))%R).
      { rewrite <- (sqrt_square (IZR r + 1 / 4096)) by lra.
        apply sqrt_le_1_alt. apply IZR_le in Hd2. rewrite plus_IZR, mult_IZR in Hd2. nra. }
      assert (Hfb : fl (IZR r + 1 / 4096)%R = (IZR r + 1 / 4096)%R).
      { replace (IZR r + 1 / 4096)%R with (IZR (4096 * r + 1) / 4096)%R
          by (rewrite plus_IZR, mult_IZR; field).
        apply Hgrid. lia. }
      pose proof (Hmono _ _ Hbound) as Hm. rewrite Hfb in Hm. lra.
  - rewrite <- Hfr. apply Hmono. exact H.
Qed.

Lemma annulus_test_float_exact fl size inner_rad outer_rad i j :
  float_conversion fl ->
  (Z.abs inner_rad <= 2047)%Z -> (Z.abs outer_rad <= 2047)%Z ->
  annulus_test_float fl size inner_rad outer_rad i j
  = annulus_test size inner_rad outer_rad i j.
Proof.
  intros Hfl Hi Ho. unfold annulus_test_float, annulus_test, annulus_dist. cbv zeta.
  set (x := (Z.of_nat i - Z.quot size 2)%Z). set (y := (Z.of_nat j - Z.quot size 2)%Z).
  assert (Hd : (0 <= x * x + y * y)%Z).
  { pose proof (Z.square_nonneg x). pose proof (Z.square_nonneg y). lia. }
  rewrite float_ge_exact, float_le_exact by (assumption || lia). reflexivity.
Qed.

(** What a call of the body does in a run with undisturbed row pointer,
    for radii up to 2047: the header [annulus] ends on a buffer that holds
    [annulus_pixels], the caller's own buffer if the header it passed fits
    and a fresh one otherwise. *)
Lemma create_annular_mask_body_run fl p_row (sigma : store) annulus
  size inner_rad outer_rad val :
  float_conversion fl -> undisturbed p_row ->
  (Z.abs inner_rad <= 2047)%Z -> (Z.abs outer_rad <= 2047)%Z ->
  create_annular_mask_body fl p_row annulus size inner_rad outer_rad val sigma
  = if decide (0 <= size)%Z
    then (Ok (assigned_header sigma annulus size),
          <[assigned_buffer sigma annulus size
            := annulus_pixels size inner_rad outer_rad val]> sigma)
    else (Raised "cv::Mat::zeros: negative size", sigma).
Proof.
  intros Hfl Hp Hi Ho.
  unfold create_annular_mask_body, Mat_assign_zeros, Mat_zeros.
  destruct (decide (0 <= size)%Z) as [Hs|Hs].
  2:{ rewrite decide_False by lia. reflexivity. }
  rewrite decide_True by lia.
  assert (Hloops : forall l s,
            for_each (seq 0 (Z.to_nat size)) (fun i =>
              for_each (seq 0 (Z.to_nat size)) (fun j =>
                if annulus_test_float fl size inner_rad outer_rad i j
                then Mat_write (mkMat (Some l) (Z.to_nat size) (Z.to_nat size))
                               (p_row i j) j val
                else mret tt))
              (<[l := replicate (Z.to_nat size) (replicate (Z.to_nat size) 0%Z)]> s)
            = (Ok tt, <[l := annulus_pixels size inner_rad outer_rad val]> s)).
  { intros l s. rewrite <- annular_mask_loops.
    apply for_each_ext. intros i t _. apply for_each_ext. intros j u _.
    rewrite annulus_test_float_exact by assumption. now rewrite Hp. }
  unfold assigned_header, assigned_buffer.
  destruct annulus as [[l|] r c]; cbn [data rows cols].
  - destruct (decide (r = Z.to_nat size /\ c = Z.to_nat size)) as [[-> ->]|Hne].
    + erewrite exec_bind_ok by reflexivity.
      erewrite exec_bind_ok by apply Hloops. reflexivity.
    + rewrite decide_True by lia.
      erewrite exec_bind_ok by reflexivity.
      erewrite exec_bind_ok by apply Hloops. reflexivity.
  - rewrite decide_True by lia.
    erewrite exec_bind_ok by reflexivity.
    erewrite exec_bind_ok by apply Hloops. reflexivity.
Qed.

(** The pixels the header shows after such a call. *)
Lemma create_annular_mask_body_pixels fl p_row (sigma : store) annulus
  size inner_rad outer_rad val :
  float_conversion fl -> undisturbed p_row ->
  (Z.abs inner_rad <= 2047)%Z -> (Z.abs outer_rad <= 2047)%Z -> (0 <= size)%Z ->
  let r := create_annular_mask_body fl p_row annulus size inner_rad outer_rad val sigma in
  exists m,
    fst r = Ok m /\ rows m = Z.to_nat size /\ cols m = Z.to_nat size
    /\ Mat_pixels (snd r) m = annulus_pixels size inner_rad outer_rad val.
Proof.
  intros Hfl Hp Hi Ho Hs r. subst r.
  rewrite create_annular_mask_body_run, decide_True by assumption.
  eexists. split; [reflexivity|]. cbn [fst snd].
  unfold assigned_header, assigned_buffer, Mat_pixels.
  destruct annulus as [[l|] r c]; cbn [data rows cols].
  - destruct (decide (r = Z.to_nat size /\ c = Z.to_nat size)) as [[-> ->]|Hne];
      cbn [data rows cols]; rewrite lookup_insert_eq; repeat split.
  - rewrite lookup_insert_eq. repeat split.
Qed.

Lemma Mat_write_other (m : Mat) i j v (sigma : store) l :
  data m <> Some l -> snd (Mat_write m i j v sigma) !! l = sigma !! l.
Proof.
  intros Hl. unfold Mat_write.
  destruct (data m) as [l0|]; [|reflexivity].
  destruct (sigma !! l0) as [px|]; [|reflexivity].
  destruct (px !! i) as [row|]; [|reflexivity].
  destruct (decide (j < length row)%nat); [|reflexivity].
  cbn [snd]. apply lookup_insert_ne. congruence.
Qed.

(** Whatever the [float] conversion and the row pointer do, a call on a
    header that does not fit touches no buffer of the store: all it writes
    goes to the fresh buffer. *)
Lemma create_annular_mask_body_frame fl p_row (sigma : store) annulus
  size inner_rad outer_rad val :
  ~ (is_Some (data annulus)
     /\ rows annulus = Z.to_nat size /\ cols annulus = Z.to_nat size) ->
  sigma ⊆ snd (create_annular_mask_body fl p_row annulus size inner_rad outer_rad val sigma).
Proof.
  intros Hfit.
  set (l := fresh (dom sigma)).
  assert (Hfresh : sigma !! l = None) by apply not_elem_of_dom, is_fresh.
  unfold create_annular_mask_body.
  assert (Hz : Mat_assign_zeros annulus size size sigma
               = if decide (0 <= size)%Z
                 then (Ok (mkMat (Some l) (Z.to_nat size) (Z.to_nat size)),
                       <[l := replicate (Z.to_nat size) (replicate (Z.to_nat size) 0%Z)]> sigma)
                 else (Raised "cv::Mat::zeros: negative size", sigma)).
  { unfold Mat_assign_zeros, Mat_zeros.
    destruct (decide (0 <= size)%Z) as [Hs|Hs].
    - rewrite decide_True by lia.
      destruct (data annulus) as [l0|] eqn:Hd; [|rewrite decide_True by lia; reflexivity].
      rewrite decide_False; [rewrite decide_True by lia; reflexivity|].
      intros [Hr Hc]. apply Hfit. split; [now exists l0 | now split].
    - rewrite decide_False by lia. reflexivity. }
  destruct (decide (0 <= size)%Z) as [Hs|Hs].
  2:{ erewrite exec_bind_raised by exact Hz. reflexivity. }
  erewrite exec_bind_ok by exact Hz.
  apply map_subseteq_spec. intros l' v Hv.
  assert (Hl' : l' <> l) by congruence.
  rewrite <- Hv.
  apply (exec_bind_always (fun s : store => s !! l' = sigma !! l')); [|auto].
  apply for_each_always; [|now apply lookup_insert_ne].
  intros i t Ht. apply for_each_always; [|exact Ht]. intros j u Hu.
  destruct (annulus_test_float fl size inner_rad outer_rad i j); [|exact Hu].
  rewrite Mat_write_other; [exact Hu|]. cbn [data]. congruence.
Qed.

(** C9 (corrected).  A call of [create_annular_mask] on a header that is
    not already a matrix of [size] by [size] with a buffer leaves every
    buffer of the store as it was, whatever the threads do: the pixels the
    caller's matrix shows are the same before and after, and what the call
    builds lives in a buffer of its own.  In [get_ellipses],
    [annulus_mask] is the empty matrix before the call and after it: it
    has no rows, no columns and no marked pixel. *)
Theorem create_annular_mask_leaves_argument :
  (forall to_float p_row (sigma : store) annulus size inner_rad outer_rad val,
      let sigma' := snd (create_annular_mask to_float p_row annulus size
                           inner_rad outer_rad val sigma) in
      ~ (is_Some (data annulus)
         /\ rows annulus = Z.to_nat size /\ cols annulus = Z.to_nat size) ->
      sigma ⊆ sigma'
      /\ ((forall l, data annulus = Some l -> l ∈ dom sigma) ->
          Mat_pixels sigma' annulus = Mat_pixels sigma annulus))
  /\ (forall to_float p_row (sigma : store) est_rad0 est_rad1,
         let r := get_ellipses_annulus_mask to_float p_row est_rad0 est_rad1 sigma in
         (forall m, fst r = Ok m -> m = Mat_empty)
         /\ sigma ⊆ snd r
         /\ Mat_pixels (snd r) Mat_empty = []
         /\ countNonZero (Mat_pixels (snd r) Mat_empty) = 0%nat).
Proof.
  assert (Hsnd : forall fl p_row annulus size inner_rad outer_rad val (sigma : store),
            snd (create_annular_mask fl p_row annulus size inner_rad outer_rad val sigma)
            = snd (create_annular_mask_body fl p_row annulus size inner_rad outer_rad val
                     sigma)).
  { intros. unfold create_annular_mask. cbv [mbind exec_mbind exec_bind].
    destruct (create_annular_mask_body _ _ _ _ _ _ _ _) as [[m|i|msg] s1]; reflexivity. }
  split.
  - intros fl p_row sigma annulus size inner_rad outer_rad val sigma' Hfit. subst sigma'.
    rewrite Hsnd.
    pose proof (create_annular_mask_body_frame fl p_row sigma annulus size inner_rad
                  outer_rad val Hfit) as Hsub.
    split; [exact Hsub|].
    intros Hvalid. unfold Mat_pixels. destruct (data annulus) as [l|]; [|reflexivity].
    pose proof (Hvalid l eq_refl) as Hin. apply elem_of_dom in Hin as [px Hpx].
    rewrite Hpx. now rewrite (lookup_weaken _ _ _ _ Hpx Hsub).
  - intros fl p_row sigma est_rad0 est_rad1 r. subst r.
    unfold get_ellipses_annulus_mask.
    set (size := double_to_int (fl (2 * est_rad1 + 1)%R)).
    set (inner_rad := double_to_int est_rad0). set (outer_rad := double_to_int est_rad1).
    assert (Hfit : ~ (is_Some (data Mat_empty)
                      /\ rows Mat_empty = Z.to_nat size /\ cols Mat_empty = Z.to_nat size)).
    { intros [[l Hl] _]. discriminate Hl. }
    pose proof (create_annular_mask_body_frame fl p_row sigma Mat_empty size inner_rad
                  outer_rad 1%Z Hfit) as Hsub.
    rewrite <- Hsnd in Hsub.
    cbv [mbind exec_mbind exec_bind] in *.
    destruct (create_annular_mask fl p_row Mat_empty size inner_rad outer_rad 1 sigma)
      as [[[]|i|msg] s1]; cbn [fst snd] in *; repeat split; try exact Hsub;
      intros m Hm; try discriminate Hm; now inversion Hm.
Qed.

(** A store with one 1x1 buffer, and the caller's header on it: a call for
    a mask of size 5 leaves the pixel of the buffer as it was. *)
Lemma create_annular_mask_leaves_argument_witness :
  ~ (is_Some (data (mkMat (Some 1%positive) 1 1))
     /\ rows (mkMat (Some 1%positive) 1 1) = Z.to_nat 5
     /\ cols (mkMat (Some 1%positive) 1 1) = Z.to_nat 5)
  /\ Mat_pixels (snd (create_annular_mask (fun x => x) (fun i _ => i)
                        (mkMat (Some 1%positive) 1 1) 5 1 2 1
                        {[1%positive := [[5%Z]]]}))
                (mkMat (Some 1%positive) 1 1)
     = [[5%Z]].
Proof.
  assert (Hfit : ~ (is_Some (data (mkMat (Some 1%positive) 1 1))
                    /\ rows (mkMat (Some 1%positive) 1 1) = Z.to_nat 5
                    /\ cols (mkMat (Some 1%positive) 1 1) = Z.to_nat 5)).
  { intros (_ & Hr & _). cbn in Hr. lia. }
  assert (Hvalid : forall l, data (mkMat (Some 1%positive) 1 1) = Some l
                             -> l ∈ dom ({[1%positive := [[5%Z]]]} : store)).
  { intros l [= <-]. apply elem_of_dom. exists [[5%Z]]. apply lookup_singleton_eq. }
  split; [exact Hfit|].
  rewrite (proj2 (proj1 create_annular_mask_leaves_argument (fun x => x) (fun i _ => i)
                    {[1%positive := [[5%Z]]]} (mkMat (Some 1%positive) 1 1) 5%Z 1%Z 2%Z 1%Z
                    Hfit)
             Hvalid).
  unfold Mat_pixels. cbn [data]. now rewrite lookup_singleton_eq.
Defined.

(** C9, the claim as stated fails: when the caller's matrix already has
    [size] rows and columns, the assignment of the zero matrix keeps its
    buffer, and the call overwrites the caller's pixels.  Here the caller's
    1x1 matrix holds 5 before a call with size 1, and 0 or 1 after it,
    whatever the conversion to [float] and the threads do. *)
Lemma create_annular_mask_overwrites_fitting_argument :
  Mat_pixels {[1%positive := [[5%Z]]]} (mkMat (Some 1%positive) 1 1) = [[5%Z]]
  /\ (forall to_float p_row,
        Mat_pixels (snd (create_annular_mask to_float p_row (mkMat (Some 1%positive) 1 1)
                           1 0 0 1 {[1%positive := [[5%Z]]]}))
                   (mkMat (Some 1%positive) 1 1)
        <> [[5%Z]]).
Proof.
  split; [unfold Mat_pixels; cbn [data]; now rewrite lookup_singleton_eq|].
  intros fl p_row.
  unfold create_annular_mask, create_annular_mask_body, Mat_assign_zeros.
  change (Z.to_nat 1) with 1%nat.
  cbn [data rows cols seq for_each replicate].
  rewrite decide_True by lia. rewrite decide_True by (split; reflexivity).
  cbv [mbind exec_mbind exec_bind mret exec_mret exec_ret].
  rewrite insert_singleton_eq.
  destruct (annulus_test_float fl 1 0 0 0 0).
  - unfold Mat_write. cbn [data]. rewrite lookup_singleton_eq.
    destruct (p_row 0%nat 0%nat) as [|n]; vm_compute; discriminate.
  - vm_compute. discriminate.
Qed.

End AnnularMaskFacts.

(** * The area of the annulus *)

Section DiscArea.

Open Scope R_scope.


Lemma rsum_ext n f g : (forall k, (k < n)%nat -> f k = g k) -> rsum n f = rsum n g.
Proof.
  induction n as [|n IH]; intros H; cbn; [reflexivity|].
  rewrite IH by (intros; apply H; lia). rewrite (H n) by lia. reflexivity.
Qed.








End DiscArea.

(** * Counting the pixels of the annulus *)

Section AnnulusCount.

Open Scope R_scope.




Lemma rsum_const n c : rsum n (fun _ => c) = INR n * c.
Proof. induction n as [|n IH]; [cbn; lra|]. cbn [rsum]. rewrite IH, S_INR. lra. Qed.



Lemma rsum_zero n f : (forall k, (k < n)%nat -> f k = 0) -> rsum n f = 0.
Proof.
  intros H. rewrite (rsum_ext n f (fun _ => 0) H), rsum_const. lra.
Qed.

(** The pixels of a matrix built row by row and pixel by pixel, counted. *)
Lemma countNonZero_map_seq (f : nat -> list Z) n :
  INR (countNonZero (map f (seq 0 n))) = rsum n (fun i => INR (countNonZero_row (f i))).
Proof.
  induction n as [|n IH]; [reflexivity|].
  rewrite seq_S_map, countNonZero_app, plus_INR, IH, countNonZero_single. reflexivity.
Qed.



(** The test on the distance is the test on its square. *)
Lemma sqrt_ge_IZR (d2 k : Z) :
  (0 <= d2)%Z ->
  bool_decide (sqrt (IZR d2) >= IZR k) = ((k <=? 0)%Z || (k * k <=? d2)%Z).
Proof.
  intros Hd.
  pose proof (sqrt_pos (IZR d2)) as Hs.
  destruct (Z.leb_spec k 0) as [Hk|Hk]; cbn [orb].
  - apply bool_decide_eq_true_2. apply IZR_le in Hk. lra.
  - assert (Hkk : sqrt (IZR (k * k)) = IZR k).
    { rewrite mult_IZR. apply sqrt_square. apply IZR_le. lia. }
    destruct (Z.leb_spec (k * k) d2) as [Hle|Hgt].
    + apply bool_decide_eq_true_2. rewrite <- Hkk. apply Rle_ge, sqrt_le_1_alt, IZR_le, Hle.
    + apply bool_decide_eq_false_2. rewrite <- Hkk. intros Hge.
      apply Rge_le, sqrt_le_0 in Hge; [| apply IZR_le; nia | apply IZR_le; lia].
      apply le_IZR in Hge. lia.
Qed.

Lemma sqrt_le_IZR (d2 k : Z) :
  (0 <= d2)%Z ->
  bool_decide (sqrt (IZR d2) <= IZR k) = ((0 <=? k)%Z && (d2 <=? k * k)%Z).
Proof.
  intros Hd.
  pose proof (sqrt_pos (IZR d2)) as Hs.
  destruct (Z.leb_spec 0 k) as [Hk|Hk]; cbn [andb].
  - assert (Hkk : sqrt (IZR (k * k)) = IZR k).
    { rewrite mult_IZR. apply sqrt_square. apply IZR_le. lia. }
    destruct (Z.leb_spec d2 (k * k)) as [Hle|Hgt].
    + apply bool_decide_eq_true_2. rewrite <- Hkk. apply sqrt_le_1_alt, IZR_le, Hle.
    + apply bool_decide_eq_false_2. rewrite <- Hkk. intros Hge.
      apply sqrt_le_0 in Hge; [| apply IZR_le; lia | apply IZR_le; nia].
      apply le_IZR in Hge. lia.
  - apply bool_decide_eq_false_2. apply IZR_lt in Hk. lra.
Qed.

Lemma sum_squares_nonneg (x y : Z) : (0 <= x * x + y * y)%Z.
Proof. nia. Qed.

Lemma annulus_test_is_test_Z size inner_rad outer_rad i j :
  annulus_test size inner_rad outer_rad i j = annulus_test_Z size inner_rad outer_rad i j.
Proof.
  unfold annulus_test, annulus_test_Z, annulus_dist. cbv zeta.
  rewrite sqrt_ge_IZR, sqrt_le_IZR by apply sum_squares_nonneg. reflexivity.
Qed.



End AnnulusCount.

(** * The annulus between two discs *)

Section AnnulusArea.

Open Scope R_scope.







End AnnulusArea.

(** * The area of the annular mask *)

Section AnnularMaskArea.

Open Scope R_scope.

Lemma odd_size_middle size :
  Z.odd size = true -> (0 < size)%Z ->
  Z.quot size 2 = Z.of_nat (Z.to_nat (Z.quot size 2))
  /\ Z.to_nat size = (2 * Z.to_nat (Z.quot size 2) + 1)%nat.
Proof.
  intros Hodd Hpos. apply Z.odd_spec in Hodd as [k Hk].
  rewrite Z.quot_div_nonneg by lia.
  assert (size / 2 = k)%Z as -> by (subst size; symmetry; apply (Z.div_unique _ 2 k 1); lia).
  split; lia.
Qed.





Lemma float_conversion_id : float_conversion (fun x => x).
Proof. split; [intros x y H; exact H | reflexivity]. Qed.





End AnnularMaskArea.

(** * Rotation of a point: properties *)

Section RotationFacts.

Open Scope R_scope.

(** X1.  Rotating by [alpha] and then by [beta] is rotating by
    [alpha + beta]. *)
Theorem rotate_point2D_compose (p : Point2d) (alpha beta : R) :
  rotate_point2D (rotate_point2D p alpha) beta = rotate_point2D p (alpha + beta).
Proof.
  unfold rotate_point2D. cbn [px py]. rewrite cos_plus, sin_plus. f_equal; ring.
Qed.

(** X2.  Rotating by [alpha] and then by [- alpha] gives the point back. *)
Theorem rotate_point2D_inverse (p : Point2d) (alpha : R) :
  rotate_point2D (rotate_point2D p alpha) (- alpha) = p.
Proof.
  unfold rotate_point2D. cbn [px py]. rewrite cos_neg, sin_neg.
  pose proof (sin2_cos2 alpha) as H. unfold Rsqr in H.
  destruct p as [x y]. cbn [px py]. f_equal.
  - replace x with (x * (sin alpha * sin alpha + cos alpha * cos alpha)) at 3 by (rewrite H; ring).
    ring.
  - replace y with (y * (sin alpha * sin alpha + cos alpha * cos alpha)) at 3 by (rewrite H; ring).
    ring.
Qed.

(** X3.  A rotation keeps the distance between two points: the squared
    distance of the images is that of the points. *)
Theorem rotate_point2D_isometry (p q : Point2d) (alpha : R) :
  let p' := rotate_point2D p alpha in
  let q' := rotate_point2D q alpha in
  (px p' - px q') * (px p' - px q') + (py p' - py q') * (py p' - py q')
  = (px p - px q) * (px p - px q) + (py p - py q) * (py p - py q).
Proof.
  cbv zeta. unfold rotate_point2D. cbn [px py].
  pose proof (sin2_cos2 alpha) as H. unfold Rsqr in H.
  set (c := cos alpha) in *. set (s := sin alpha) in *.
  set (dx := px p - px q). set (dy := py p - py q).
  replace (px p * c - py p * s - (px q * c - py q * s)) with (dx * c - dy * s) by (subst dx dy; ring).
  replace (px p * s + py p * c - (px q * s + py q * c)) with (dx * s + dy * c) by (subst dx dy; ring).
  replace ((dx * c - dy * s) * (dx * c - dy * s) + (dx * s + dy * c) * (dx * s + dy * c))
    with ((dx * dx + dy * dy) * (s * s + c * c)) by ring.
  rewrite H. ring.
Qed.

End RotationFacts.

(** * The part of the image under the mask: properties *)

Section MaskValuesFacts.

Open Scope Z_scope.

(** X4.  For a square mask that overlaps a square image, both rectangles
    of [get_mask_values] lie inside their matrices, they have the same
    size, and that size is positive. *)
Theorem get_mask_values_rects_inside (img mask : Mat) (top_left : Point2i) :
  rows img = cols img -> rows mask = cols mask ->
  (0 < cols img)%nat -> (0 < cols mask)%nat ->
  - Z.of_nat (cols mask) < ix top_left < Z.of_nat (cols img) ->
  - Z.of_nat (cols mask) < iy top_left < Z.of_nat (cols img) ->
  let r := get_mask_values_rects img mask top_left in
  Rect_inside (fst r) img /\ Rect_inside (snd r) mask
  /\ 0 < rect_width (fst r) /\ 0 < rect_height (fst r)
  /\ rect_width (snd r) = rect_width (fst r)
  /\ rect_height (snd r) = rect_height (fst r).
Proof.
  intros Hi Hm Hn0 Hm0 Hx Hy r. subst r.
  unfold get_mask_values_rects, Rect_inside. cbv zeta. cbn [fst snd rect_x rect_y rect_width rect_height].
  rewrite Hi, Hm.
  destruct (decide (ix top_left >= 0)) as [Hx0|Hx0];
    destruct (decide (ix top_left + Z.of_nat (cols mask) <= Z.of_nat (cols img))) as [Hx1|Hx1];
    destruct (decide (iy top_left >= 0)) as [Hy0|Hy0];
    destruct (decide (iy top_left + Z.of_nat (cols mask) <= Z.of_nat (cols img))) as [Hy1|Hy1];
    repeat (match goal with
            | |- context [decide (?a <> 0)] =>
                destruct (decide (a <> 0)) as [?|?]
            end);
    lia.
Qed.

(** X5.  The vertical limits are computed from [img.cols], not from
    [img.rows]: a mask that fits between row 0 and row [img.cols] but
    reaches below row [img.rows] gives a rectangle that leaves the image. *)
Theorem get_mask_values_rects_rows_unchecked (img mask : Mat) (top_left : Point2i) :
  0 <= iy top_left ->
  iy top_left + Z.of_nat (cols mask) <= Z.of_nat (cols img) ->
  Z.of_nat (rows img) < iy top_left + Z.of_nat (cols mask) ->
  let r := get_mask_values_rects img mask top_left in
  rect_y (fst r) = iy top_left
  /\ rect_height (fst r) = Z.of_nat (cols mask)
  /\ ~ Rect_inside (fst r) img.
Proof.
  intros Hy0 Hy1 Hrows r. subst r.
  unfold get_mask_values_rects, Rect_inside. cbv zeta. cbn [fst snd rect_x rect_y rect_width rect_height].
  rewrite (decide_True (P := iy top_left >= 0)) by lia.
  rewrite (decide_True (P := iy top_left + Z.of_nat (cols mask) <= Z.of_nat (cols img))) by lia.
  rewrite (decide_False (P := 0 <> 0)) by lia.
  repeat split; try lia.
Qed.

End MaskValuesFacts.

(** A 3x3 mask whose corner is at (-1, 4) on a 5x5 image: the rectangle on
    the image is 2 wide and 1 high, at (0, 4). *)
Lemma get_mask_values_rects_inside_witness :
  Rect_inside (fst (get_mask_values_rects (mkMat None 5 5) (mkMat None 3 3)
                      (mkPoint2i (-1) 4)))
              (mkMat None 5 5)
  /\ fst (get_mask_values_rects (mkMat None 5 5) (mkMat None 3 3) (mkPoint2i (-1) 4))
     = mkRect 0 4 2 1.
Proof.
  split; [|reflexivity].
  apply (get_mask_values_rects_inside (mkMat None 5 5) (mkMat None 3 3) (mkPoint2i (-1) 4));
    cbn; lia.
Defined.

(** A 3x3 mask at (0, 2) on an image of 4 rows and 6 columns: rows 2 to 4
    are asked for, and the image ends at row 3. *)
Lemma get_mask_values_rects_rows_unchecked_witness :
  (0 <= 2)%Z
  /\ ~ Rect_inside (fst (get_mask_values_rects (mkMat None 4 6) (mkMat None 3 3)
                           (mkPoint2i 0 2)))
                   (mkMat None 4 6).
Proof.
  split; [lia|].
  apply (get_mask_values_rects_rows_unchecked (mkMat None 4 6) (mkMat None 3 3) (mkPoint2i 0 2));
    cbn; lia.
Defined.

(** * Conic to ellipse: short vectors and the centre *)

Section ConicMoreFacts.

Open Scope R_scope.

(** X6.  A coefficient vector of fewer than six entries is never accepted
    with a result.  With fewer than three entries the run stops at a read
    outside the vector, the frame untouched.  With three to five entries and
    a positive test value the flag is cleared and [el] returned, as for six
    entries; otherwise the run stops at a read of one of the missing
    coefficients, before the vector of extremal points is created. *)
Theorem ellipse_points_from_short_conic (conic : list R) fr :
  (length conic < 6)%nat ->
  let r := ellipse_points_from_conic conic fr in
  match conic with
  | A :: B :: C :: _ =>
      if decide (4 * A * C - B * B > 0)
      then r = (let e := mkEllipse false (angle (el fr)) (center (el fr)) (a (el fr)) (b (el fr))
                in (Ok e, mkFrame e (extrema fr)))
      else (exists i, fst r = OutOfRange i /\ (length conic <= i < 6)%nat)
           /\ extrema (snd r) = extrema fr
  | _ => exists i, r = (OutOfRange i, fr) /\ (length conic <= i < 3)%nat
  end.
Proof.
  intros Hlen r. subst r.
  destruct conic as [|A [|B [|C rest]]];
    [exists 0%nat; split; [reflexivity | cbn; lia]
    |exists 2%nat; split; [reflexivity | cbn; lia]
    |exists 2%nat; split; [reflexivity | cbn; lia]
    |].
  unfold ellipse_points_from_conic. exec_unfold. cbn [lookup list_lookup].
  destruct (decide (4 * A * C - B * B > 0)) as [Hp|Hn];
    destruct (decide (4.0 * A * C - B * B > 0)) as [Hp'|Hn']; try (exfalso; lra);
    [reflexivity|].
  destruct rest as [|D [|E [|F rest]]]; cbn in Hlen; try lia;
    cbv [set_is_ellipse set_angle modify get mbind exec_mbind exec_bind mret exec_mret
         exec_ret fault vec_get]; cbn; (split; [eexists; split; [reflexivity|lia] | reflexivity]).
Qed.

(** The centre [ellipse_points_from_conic] records for an accepted conic,
    in terms of the recorded angle. *)
Lemma conic_center A B C D E F fr :
  4 * A * C - B * B <= 0 ->
  let r := ellipse_points_from_conic [A; B; C; D; E; F] fr in
  let th := angle (el (snd r)) in
  let A' := A * cos th * cos th + B * cos th * sin th + C * sin th * sin th in
  let C' := A * sin th * sin th - B * cos th * sin th + C * cos th * cos th in
  let D' := D * cos th + E * sin th in
  let E' := E * cos th - D * sin th in
  let x := -0.5 * D' / A' in
  let y := -0.5 * E' / C' in
  center (el (snd r)) = mkPoint2d (x * cos th - y * sin th) (x * sin th + y * cos th).
Proof.
  intros H r. subst r. unfold ellipse_points_from_conic.
  exec_unfold; cbn.
  destruct (decide (4.0 * A * C - B * B > 0)) as [n|_]; [exfalso; lra|].
  cbv [extrema_set set_is_ellipse set_angle set_a set_b set_center new_extrema
       modify get mbind exec_mbind exec_bind vec_set mret exec_mret exec_ret
       el extrema replicate length decide fault].
  cbn. reflexivity.
Qed.

(** The rotation by half of [atan (B / (A - C))] removes the mixed term. *)
Lemma half_atan_removes_mixed_term A B C :
  A <> C ->
  let th := 0.5 * atan (B / (A - C)) in
  2 * (C - A) * cos th * sin th + B * (cos th * cos th - sin th * sin th) = 0.
Proof.
  intros Hne th.
  set (t := atan (B / (A - C))).
  assert (Hcos : 0 < cos t) by (apply cos_gt_0; pose proof (atan_bound (B / (A - C))); fold t in H; lra).
  assert (Htan : sin t = B / (A - C) * cos t).
  { pose proof (tan_atan (B / (A - C))) as Ht. fold t in Ht. unfold tan in Ht.
    rewrite <- Ht. field. lra. }
  assert (H2 : sin t = 2 * sin th * cos th).
  { replace t with (2 * th) by (subst th t; lra). apply sin_2a. }
  assert (H3 : cos t = cos th * cos th - sin th * sin th).
  { replace t with (2 * th) by (subst th t; lra). apply cos_2a. }
  rewrite <- H3.
  replace (2 * (C - A) * cos th * sin th) with ((C - A) * sin t) by (rewrite H2; ring).
  rewrite Htan. field. lra.
Qed.

(** X7.  For an accepted conic with [4AC - B^2 < 0] (a hyperbola) and
    [A <> C] whose angle needs no adjustment, the recorded centre is the
    centre of the conic: both partial derivatives of
    [A x^2 + B x y + C y^2 + D x + E y + F] vanish there. *)
Theorem recorded_center_is_center A B C D E F fr :
  4 * A * C - B * B < 0 -> A <> C -> 0 <= atan (B / (A - C)) ->
  let c := center (el (snd (ellipse_points_from_conic [A; B; C; D; E; F] fr))) in
  2 * A * px c + B * py c + D = 0
  /\ B * px c + 2 * C * py c + E = 0.
Proof.
  intros Hd Hne Hpos c.
  assert (Hd' : 4 * A * C - B * B <= 0) by lra.
  pose proof (conic_center A B C D E F fr Hd') as Hc. cbv zeta in Hc.
  destruct (conic_nonpositive_test A B C D E F fr Hd') as (_ & _ & Hth & _). cbv zeta in Hth.
  rewrite decide_False in Hth by lra.
  fold c in Hc. rewrite Hth in Hc.
  pose proof (half_atan_removes_mixed_term A B C Hne) as Hmix. cbv zeta in Hmix.
  set (th := 0.5 * atan (B / (A - C))) in *.
  pose proof (sin2_cos2 th) as Hsc. unfold Rsqr in Hsc.
  set (co := cos th) in *. set (si := sin th) in *.
  set (A' := A * co * co + B * co * si + C * si * si) in *.
  set (C' := A * si * si - B * co * si + C * co * co) in *.
  set (D' := D * co + E * si) in *.
  set (E' := E * co - D * si) in *.
  assert (HAC : 4 * A' * C' = 4 * A * C - B * B).
  { assert (Hinv : 4 * A' * C' - (2 * (C - A) * co * si + B * (co * co - si * si))
                                 * (2 * (C - A) * co * si + B * (co * co - si * si))
                   = (4 * A * C - B * B) * ((si * si + co * co) * (si * si + co * co))).
    { subst A' C'. ring. }
    rewrite Hmix, Hsc in Hinv. lra. }
  assert (HA : A' <> 0) by (intros Hz; rewrite Hz in HAC; lra).
  assert (HC : C' <> 0) by (intros Hz; rewrite Hz in HAC; lra).
  replace (-0.5) with (- (1 / 2)) in Hc by lra.
  set (x := - (1 / 2) * D' / A') in *. set (y := - (1 / 2) * E' / C') in *.
  assert (Hx : 2 * A' * x + D' = 0) by (subst x; field; exact HA).
  assert (Hy : 2 * C' * y + E' = 0) by (subst y; field; exact HC).
  rewrite Hc. cbn [px py].
  set (G1 := 2 * A * (x * co - y * si) + B * (x * si + y * co) + D).
  set (G2 := B * (x * co - y * si) + 2 * C * (x * si + y * co) + E).
  assert (H1 : co * G1 + si * G2 = 0).
  { replace (co * G1 + si * G2)
      with (2 * A' * x + D'
            + (2 * (C - A) * co * si + B * (co * co - si * si)) * y)
      by (subst G1 G2 A' D'; ring).
    rewrite Hmix, Hx. ring. }
  assert (H2 : co * G2 - si * G1 = 0).
  { replace (co * G2 - si * G1)
      with (2 * C' * y + E'
            + (2 * (C - A) * co * si + B * (co * co - si * si)) * x)
      by (subst G1 G2 C' E'; ring).
    rewrite Hmix, Hy. ring. }
  assert (HG1 : G1 = 0).
  { replace G1 with ((si * si + co * co) * G1) by (rewrite Hsc; ring).
    replace ((si * si + co * co) * G1) with (co * (co * G1 + si * G2) - si * (co * G2 - si * G1)) by ring.
    rewrite H1, H2. ring. }
  assert (HG2 : G2 = 0).
  { replace G2 with ((si * si + co * co) * G2) by (rewrite Hsc; ring).
    replace ((si * si + co * co) * G2) with (si * (co * G1 + si * G2) + co * (co * G2 - si * G1)) by ring.
    rewrite H1, H2. ring. }
  split; assumption.
Qed.

End ConicMoreFacts.

(** Five entries with a test value that is not positive: the run stops at
    [conic[5]]. *)
Lemma ellipse_points_from_short_conic_witness :
  (length [1; 0; -1; 0; 0]%R < 6)%nat
  /\ fst (ellipse_points_from_conic [1; 0; -1; 0; 0]%R frame0) = OutOfRange 5.
Proof.
  split; [cbn; lia|].
  pose proof (ellipse_points_from_short_conic [1; 0; -1; 0; 0]%R frame0 ltac:(cbn; lia)) as H.
  cbv beta iota zeta in H.
  destruct (decide (4 * 1 * -1 - 0 * 0 > 0)%R) as [Hp|_]; [exfalso; lra|].
  destruct H as [(i & Hi & Hr) _]. cbn [length] in Hr.
  replace i with 5%nat in Hi by lia. exact Hi.
Defined.

(** The hyperbola [(x - 1)^2 - (y - 2)^2 = 1], whose centre is (1, 2). *)
Lemma recorded_center_is_center_witness :
  (4 * 1 * (-1) - 0 * 0 < 0)%R
  /\ (let c := center (el (snd (ellipse_points_from_conic [1; 0; -1; -2; 4; -4]%R frame0))) in
      2 * 1 * px c + 0 * py c + -2 = 0 /\ 0 * px c + 2 * -1 * py c + 4 = 0)%R.
Proof.
  assert (Hd : (4 * 1 * (-1) - 0 * 0 < 0)%R) by lra.
  assert (Hne : (1 <> -1)%R) by lra.
  assert (Ha : (0 <= atan (0 / (1 - -1)))%R).
  { replace (0 / (1 - -1))%R with 0%R by field. rewrite atan_0. lra. }
  split; [exact Hd|].
  exact (recorded_center_is_center 1 0 (-1) (-2) 4 (-4) frame0 Hd Hne Ha).
Defined.

(** * The clustering routine: several variables, and the centres it leaves *)

Section WeightedKmeansMoreFacts.

Open Scope R_scope.

Variable feval : call -> string + list (list R).

(** The copy loop of a row writes every element to [data1D[0]] and stops
    at the read past the end of the row. *)
Lemma wk_copy_row_stops (pending : list R) : forall j x c l d cs,
  last pending = Some x -> d <> [] ->
  wk_copy_row pending j (mkMstate (mkWk c l d) cs)
  = (OutOfRange (j + length pending), mkMstate (mkWk c l (<[0%nat := x]> d)) cs).
Proof.
  induction pending as [|y p IH]; intros j x c l d cs Hlast Hd; [discriminate Hlast|].
  assert (Hlen : (0 < length d)%nat) by (destruct d; [congruence | cbn; lia]).
  cbn [wk_copy_row].
  erewrite exec_bind_ok by reflexivity.
  erewrite exec_bind_ok by (unfold vec_set; cbn [vars data1D]; rewrite decide_True by exact Hlen;
                            reflexivity).
  erewrite exec_bind_ok by reflexivity.
  cbn [vars centers labels calls].
  destruct p as [|z p'].
  - cbn in Hlast. inversion Hlast; subst x. cbn. rewrite Nat.add_1_r. reflexivity.
  - rewrite (IH (S j) x) by
      (first [ exact Hlast | intros Hnil; apply (f_equal length) in Hnil;
                             rewrite length_insert in Hnil; cbn in Hnil; lia ]).
    rewrite list_insert_insert_eq. cbn [length]. do 2 f_equal. lia.
Qed.

(** X8.  With more than one variable and at least one sample,
    [weighted_kmeans] never reaches the engine: the copy of the first row
    overwrites [data1D[0]] with each sample in turn and stops at
    [data[0][n]], one past the [n] samples of the row.  [centers] and
    [labels] are left as they were. *)
Theorem weighted_kmeans_several_variables data d0 x weights k s :
  (length data > 1)%nat -> data !! 0%nat = Some d0 -> last d0 = Some x ->
  weighted_kmeans feval data weights k s
  = (OutOfRange (length d0),
     mkMstate (mkWk (centers (vars s)) (labels (vars s))
                    (<[0%nat := x]> (replicate (length data * length d0) 0)))
              (calls s)).
Proof.
  intros Hn Hd0 Hlast. unfold weighted_kmeans.
  destruct (decide (length data > 1)%nat) as [_|Hle]; [|contradiction].
  assert (Hd0len : (0 < length d0)%nat) by (destruct d0; [discriminate Hlast | cbn; lia]).
  destruct data as [|r0 data']; [discriminate Hd0|].
  cbn in Hd0. inversion Hd0; subst r0.
  destruct s as [[c l d] cs].
  erewrite exec_bind_fault; [reflexivity|].
  erewrite exec_bind_ok by reflexivity.
  erewrite exec_bind_ok by reflexivity.
  cbn [length seq for_each].
  erewrite exec_bind_fault; [reflexivity|].
  erewrite exec_bind_ok by reflexivity.
  destruct (decide (length d0 <> 0%nat)) as [_|Hz]; [|lia].
  erewrite exec_bind_ok by reflexivity.
  cbn [vars centers labels calls].
  rewrite (wk_copy_row_stops d0 0 x); [reflexivity | exact Hlast |].
  intros Hnil. apply (f_equal length) in Hnil. rewrite length_replicate in Hnil.
  cbn [length] in Hnil. nia.
Qed.

(** X9.  The centres of a normal return of [weighted_kmeans] are [k] empty
    vectors, so the statement of [get_ellipses] that follows the call,
    [center_vals[0] = centers[0][0]], reads outside a vector: the filter
    stops there with nothing written, whatever the mask. *)
Theorem clustered_centers_cannot_be_read data weights k s (mask : list (list Z)) v0 :
  fst (weighted_kmeans feval data weights k s) = Ok tt ->
  let s' := snd (weighted_kmeans feval data weights k s) in
  get_ellipses_refined_mask mask (centers (vars s')) (labels (vars s')) v0
  = (OutOfRange 0, v0).
Proof.
  intros H s'. subst s'.
  destruct (weighted_kmeans feval data weights k s) as [r s'] eqn:E.
  cbn in H. subst r. cbn [snd].
  destruct (weighted_kmeans_normal_return feval data weights k s s' E) as (_ & -> & _).
  unfold get_ellipses_refined_mask.
  destruct (Z.to_nat k) as [|n]; reflexivity.
Qed.

End WeightedKmeansMoreFacts.

(** Two variables of two samples each: the run stops at [data[0][2]], with
    the second sample of the first variable in [data1D[0]]. *)
Lemma weighted_kmeans_several_variables_witness :
  weighted_kmeans (fun _ => inr []) [[1; 2]; [3; 4]]%R [1; 1]%R 2 (mkMstate (mkWk [] [] []) [])
  = (OutOfRange 2, mkMstate (mkWk [] [] [2; 0; 0; 0]%R) []).
Proof.
  exact (weighted_kmeans_several_variables (fun _ => inr []) [[1; 2]; [3; 4]]%R [1; 2]%R 2%R
           [1; 1]%R 2%Z (mkMstate (mkWk [] [] []) []) ltac:(cbn; lia) eq_refl eq_refl).
Defined.

(** No cluster asked for: [weighted_kmeans] returns, with no centre; the
    filter stops at [centers[0]]. *)
Lemma clustered_centers_cannot_be_read_witness :
  fst (weighted_kmeans (fun _ => inr [[0]%R]) [[7%R]] [1%R] 0 (mkMstate (mkWk [] [] []) []))
  = Ok tt
  /\ get_ellipses_refined_mask [[1%Z]]
       (centers (vars (snd (weighted_kmeans (fun _ => inr [[0]%R]) [[7%R]] [1%R] 0
                              (mkMstate (mkWk [] [] []) [])))))
       (labels (vars (snd (weighted_kmeans (fun _ => inr [[0]%R]) [[7%R]] [1%R] 0
                             (mkMstate (mkWk [] [] []) [])))))
       (mkRm [] 0)
     = (OutOfRange 0, mkRm [] 0).
Proof.
  split; [reflexivity|].
  exact (clustered_centers_cannot_be_read (fun _ => inr [[0]%R]) [[7%R]] [1%R] 0%Z
           (mkMstate (mkWk [] [] []) []) [[1%Z]] (mkRm [] 0) eq_refl).
Defined.

(** * The marked pixels of a mask: properties *)

Section MarkedPixelsFacts.

Lemma marks_row_app i (r1 r2 : list Z) : forall j,
  marks_row i j (r1 ++ r2) = marks_row i j r1 ++ marks_row i (j + length r1) r2.
Proof.
  induction r1 as [|p r1 IH]; intros j; cbn [app marks_row length].
  - now rewrite Nat.add_0_r.
  - rewrite IH, <- app_assoc. do 2 f_equal. f_equal. lia.
Qed.

Lemma marks_app (m1 m2 : list (list Z)) : forall i,
  marks i (m1 ++ m2) = marks i m1 ++ marks (i + length m1) m2.
Proof.
  induction m1 as [|r m1 IH]; intros i; cbn [app marks length].
  - now rewrite Nat.add_0_r.
  - rewrite IH, <- app_assoc. do 2 f_equal. f_equal. lia.
Qed.

Lemma length_marks_row i (row : list Z) : forall j,
  length (marks_row i j row) = countNonZero_row row.
Proof.
  unfold countNonZero_row.
  induction row as [|p row IH]; intros j; [reflexivity|].
  cbn [marks_row]. rewrite length_app, IH, filter_cons.
  destruct (decide (p <> 0%Z)); reflexivity.
Qed.

Lemma length_marks (mask : list (list Z)) : forall i,
  length (marks i mask) = countNonZero mask.
Proof.
  induction mask as [|row mask IH]; intros i; [reflexivity|].
  cbn [marks]. rewrite length_app, IH, length_marks_row.
  change (row :: mask) with ([row] ++ mask).
  now rewrite countNonZero_app, countNonZero_single.
Qed.

(** The marks of the first [x + 1] pixels of a row. *)
Lemma marks_row_take_S i (row : list Z) x p :
  row !! x = Some p ->
  marks_row i 0 (take (S x) row)
  = marks_row i 0 (take x row) ++ (if decide (p <> 0%Z) then [(i, x)] else []).
Proof.
  intros Hp. rewrite (take_S_r _ _ _ Hp), marks_row_app.
  rewrite length_take_le by (apply Nat.lt_le_incl; eapply lookup_lt_Some; eauto).
  cbn [marks_row Nat.add]. now rewrite app_nil_r.
Qed.

(** The marks of the first [y + 1] rows of a mask. *)
Lemma marks_take_S (mask : list (list Z)) y row :
  mask !! y = Some row ->
  marks 0 (take (S y) mask) = marks 0 (take y mask) ++ marks_row y 0 row.
Proof.
  intros Hrow. rewrite (take_S_r _ _ _ Hrow), marks_app.
  rewrite length_take_le by (apply Nat.lt_le_incl; eapply lookup_lt_Some; eauto).
  cbn [marks Nat.add]. now rewrite app_nil_r.
Qed.

(** A non-zero pixel is among the marks. *)
Lemma marked_pixel_in_marks (mask : list (list Z)) y x row p :
  mask !! y = Some row -> row !! x = Some p -> p <> 0%Z -> (y, x) ∈ marks 0 mask.
Proof.
  intros Hrow Hp Hnz.
  rewrite <- (take_drop (S y) mask), marks_app, (marks_take_S _ _ _ Hrow).
  rewrite <- (take_drop (S x) row), marks_row_app, (marks_row_take_S _ _ _ _ Hp).
  rewrite decide_True by assumption.
  rewrite !elem_of_app. left. right. left. right. now apply list_elem_of_singleton.
Qed.

End MarkedPixelsFacts.

(** * The fitting routine: what is packaged *)

Section HyperRenormPackaging.

Open Scope R_scope.

Variable feval : call -> string + list (list R).

Lemma hre_pack_step weights n ms e cs i j q :
  (length ms < n)%nat ->
  weights !! i ≫= (.!! j) = Some q ->
  hre_pack weights i j (mkMstate (hre_packed weights n ms e) cs)
  = (Ok tt, mkMstate (hre_packed weights n (ms ++ [(i, j)]) e) cs).
Proof.
  intros Hlt Hq. unfold hre_pack, hre_packed.
  erewrite exec_bind_ok by reflexivity. cbn [vars hre_x hre_y hre_w hre_k].
  replace (n - length ms)%nat with (S (n - S (length ms))) by lia. cbn [replicate].
  erewrite exec_bind_ok.
  2:{ unfold vec_set. rewrite decide_True; [reflexivity|].
      rewrite length_app, length_map. cbn. lia. }
  erewrite exec_bind_ok.
  2:{ unfold vec_set. rewrite decide_True; [reflexivity|].
      rewrite length_app, length_map. cbn. lia. }
  destruct (weights !! i) as [wrow|] eqn:Hwrow; [|discriminate Hq]. cbn in Hq.
  erewrite exec_bind_ok.
  2:{ unfold px_get. erewrite exec_bind_ok by (unfold vec_get; rewrite Hwrow; reflexivity).
      unfold vec_get. rewrite Hq. reflexivity. }
  erewrite exec_bind_ok.
  2:{ unfold vec_set. rewrite decide_True; [reflexivity|].
      rewrite length_app, length_map. cbn. lia. }
  unfold modify_vars. cbn [vars calls hre_k ellipse_param].
  rewrite !insert_middle by now rewrite length_map.
  rewrite !map_app, <- !app_assoc, length_app. cbn [map length app fst snd].
  replace (weight_at weights (i, j)) with q
    by (unfold weight_at; cbn [fst snd]; rewrite Hwrow; cbn; now rewrite Hq).
  rewrite Nat.add_1_r. reflexivity.
Qed.

(** The packaging loops visit the marked pixels row by row, and write the
    column, the row and the weight of the [k]-th one at index [k]. *)
Lemma hre_packaging_run (mask : list (list Z)) weights e cs :
  rectangular mask ->
  (forall ij, ij ∈ marks 0 mask -> is_Some (weights !! fst ij ≫= (.!! snd ij))) ->
  let n := countNonZero mask in
  for_each (seq 0 (px_rows mask)) (fun i =>
    for_each (seq 0 (px_cols mask)) (fun j =>
      p ← px_get mask i j;
      if decide (p <> 0%Z) then hre_pack weights i j else mret tt))
    (mkMstate (hre_packed weights n [] e) cs)
  = (Ok tt, mkMstate (hre_packed weights n (marks 0 mask) e) cs).
Proof.
  intros Hrect Hw n.
  set (rows := px_rows mask). set (cols := px_cols mask).
  set (body := fun i : nat => for_each _ _).
  destruct (for_each_seq_inv
              (fun y s => s = mkMstate (hre_packed weights n (marks 0 (take y mask)) e) cs)
              body rows 0 (mkMstate (hre_packed weights n [] e) cs)) as (s' & Hrun & Hs').
  { reflexivity. }
  { intros y t [_ Hy] ->. cbn in Hy.
    destruct (lookup_lt_is_Some_2 mask y Hy) as [row Hrow].
    assert (Hrl : length row = cols) by (apply Hrect; eapply list_elem_of_lookup_2; eauto).
    subst body. cbv beta.
    destruct (for_each_seq_inv
                (fun x s => s = mkMstate (hre_packed weights n
                                            (marks 0 (take y mask) ++ marks_row y 0 (take x row))
                                            e) cs)
                (fun j : nat =>
                   p ← px_get mask y j;
                   if decide (p <> 0%Z) then hre_pack weights y j else mret tt)
                cols 0 (mkMstate (hre_packed weights n (marks 0 (take y mask)) e) cs))
      as (t' & Hin & Ht').
    { cbn [take marks_row]. now rewrite app_nil_r. }
    { intros x u [_ Hx] ->. cbn in Hx.
      assert (Hxl : (x < length row)%nat) by lia.
      destruct (lookup_lt_is_Some_2 row x Hxl) as [p Hp].
      erewrite exec_bind_ok by (unfold px_get; erewrite exec_bind_ok
                                  by (unfold vec_get; rewrite Hrow; reflexivity);
                                unfold vec_get; rewrite Hp; reflexivity).
      rewrite (marks_row_take_S _ _ _ _ Hp).
      destruct (decide (p <> 0%Z)) as [Hnz|Hz].
      - pose proof (marked_pixel_rank mask y x row p Hrow Hp Hnz) as Hrank.
        destruct (Hw (y, x) (marked_pixel_in_marks mask y x row p Hrow Hp Hnz)) as [q Hq].
        cbn [fst snd] in Hq.
        eexists. split.
        + apply (hre_pack_step _ _ _ _ _ _ _ q); [|exact Hq].
          rewrite length_app, length_marks, length_marks_row. exact Hrank.
        + now rewrite app_assoc.
      - eexists. split; [reflexivity|]. now rewrite app_nil_r. }
    exists t'. split; [exact Hin|]. rewrite Ht'. change (0 + cols)%nat with cols.
    rewrite <- Hrl, firstn_all, (marks_take_S _ _ _ Hrow). reflexivity. }
  rewrite Hrun, Hs'. change (0 + rows)%nat with rows.
  subst rows. unfold px_rows. now rewrite firstn_all.
Qed.

(** From the call of the engine to the return. *)
Lemma hyper_renorm_ellipse_from_call c x y w k e cs :
  let run :=
    (outs ← engine_feval feval c;
     let el := default [] (head outs) in
     modify_vars (fun v => mkHre (hre_x v) (hre_y v) (hre_w v) 0 (replicate 5 0));;
     for_each el hre_store;;
     v ← get_vars;
     mret (ellipse_param v)) (mkMstate (mkHre x y w k e) cs) in
  calls (snd run) = cs ++ [c]
  /\ match feval c with
     | inl msg => fst run = Raised msg
     | inr outs =>
         let el := default [] (head outs) in
         fst run = if decide (length el <= 5)%nat
                   then Ok (el ++ replicate (5 - length el) 0)
                   else OutOfRange 5
     end.
Proof.
  intros run. subst run.
  destruct (feval c) as [msg|outs] eqn:Hf.
  { erewrite exec_bind_raised by (unfold engine_feval; rewrite Hf; reflexivity).
    split; reflexivity. }
  erewrite exec_bind_ok by (unfold engine_feval; rewrite Hf; reflexivity).
  erewrite exec_bind_ok by reflexivity.
  cbn [vars calls hre_x hre_y hre_w].
  set (el := default [] (head outs)).
  pose proof (for_each_hre_store el x y w 0 (replicate 5 0) (cs ++ [c])) as Hcopy.
  cbn [length replicate Nat.add] in Hcopy.
  destruct (decide (length el <= 5)%nat) as [Hle|Hgt].
  - erewrite exec_bind_ok by (apply Hcopy; lia).
    split; [reflexivity|]. cbn. f_equal.
    change [0; 0; 0; 0; 0] with (replicate 5 0).
    rewrite drop_replicate. reflexivity.
  - erewrite exec_bind_fault by (apply Hcopy; lia).
    split; reflexivity.
Qed.

(** X10.  When [weights] has a pixel wherever [mask] is marked,
    [hyper_renorm_ellipse] calls the MATLAB routine once, and the arrays it
    passes hold, for the marked pixels taken row by row, the column index,
    the row index and the weight; no write leaves the three vectors.  The
    reply is then copied as far as the 5 entries of [ellipse_param] go. *)
Theorem hyper_renorm_ellipse_packaging (mask : list (list Z)) weights f0 thresh max_iter s :
  rectangular mask ->
  (forall ij, ij ∈ marks 0 mask -> is_Some (weights !! fst ij ≫= (.!! snd ij))) ->
  let ms := marks 0 mask in
  let c := hre_call (countNonZero mask)
             (map (fun ij => INR (snd ij)) ms) (map (fun ij => INR (fst ij)) ms)
             (map (weight_at weights) ms) f0 max_iter thresh in
  let r := hyper_renorm_ellipse feval mask weights f0 thresh max_iter s in
  length ms = countNonZero mask
  /\ calls (snd r) = calls s ++ [c]
  /\ match feval c with
     | inl msg => fst r = Raised msg
     | inr outs =>
         let el := default [] (head outs) in
         fst r = if decide (length el <= 5)%nat
                 then Ok (el ++ replicate (5 - length el) 0)
                 else OutOfRange 5
     end.
Proof.
  intros Hrect Hw ms c r. subst r.
  split; [apply length_marks|].
  unfold hyper_renorm_ellipse. destruct s as [v0 cs].
  erewrite exec_bind_ok by reflexivity.
  cbn [vars calls].
  pose proof (hre_packaging_run mask weights (ellipse_param v0) cs Hrect Hw) as Hpack.
  cbv zeta in Hpack. unfold hre_packed at 1 in Hpack.
  cbn [map length app] in Hpack. rewrite Nat.sub_0_r in Hpack.
  erewrite exec_bind_ok by exact Hpack.
  erewrite exec_bind_ok by reflexivity.
  unfold hre_packed. cbn [vars hre_x hre_y hre_w].
  rewrite length_marks, Nat.sub_diag. cbn [replicate]. rewrite !app_nil_r.
  fold ms. fold c.
  apply hyper_renorm_ellipse_from_call.
Qed.

End HyperRenormPackaging.

(** Two marked pixels on the diagonal of a 2x2 mask. *)
Lemma hyper_renorm_ellipse_packaging_witness :
  rectangular [[1; 0]; [0; 1]]%Z
  /\ calls (snd (hyper_renorm_ellipse (fun _ => inr [[1; 0; 1; 0; 0]%R])
                   [[1; 0]; [0; 1]]%Z [[5; 6]; [7; 8]]%R 1 1 10 (mkMstate hre_init [])))
     = [hre_call 2 [0; 1]%R [0; 1]%R [5; 8]%R 1 10 1].
Proof.
  assert (Hrect : rectangular [[1; 0]; [0; 1]]%Z).
  { intros row Hrow. apply list_elem_of_In in Hrow.
    destruct Hrow as [<-|[<-|[]]]; reflexivity. }
  assert (Hw : forall ij, ij ∈ marks 0 [[1; 0]; [0; 1]]%Z ->
                 is_Some ([[5; 6]; [7; 8]]%R !! fst ij ≫= (.!! snd ij))).
  { intros ij Hij. apply list_elem_of_In in Hij.
    destruct Hij as [<-|[<-|[]]]; eexists; reflexivity. }
  split; [exact Hrect|].
  exact (proj1 (proj2 (hyper_renorm_ellipse_packaging (fun _ => inr [[1; 0; 1; 0; 0]%R])
                         [[1; 0]; [0; 1]]%Z [[5; 6]; [7; 8]]%R 1%R 1%R 10%Z
                         (mkMstate hre_init []) Hrect Hw))).
Defined.

(** * The fitting routine: only the positions of the marked pixels count *)

Section HyperRenormSupport.

Open Scope R_scope.

Variable feval : call -> string + list (list R).

Section Support.

Variable f : Z -> Z.
Hypothesis f_support : forall p, f p <> 0%Z <-> p <> 0%Z.

Lemma countNonZero_map_support (mask : list (list Z)) :
  countNonZero (map (map f) mask) = countNonZero mask.
Proof.
  unfold countNonZero. rewrite <- concat_map.
  induction (concat mask) as [|p l IH]; [reflexivity|].
  cbn [map]. rewrite !filter_cons.
  destruct (decide (f p <> 0%Z)) as [H1|H1]; destruct (decide (p <> 0%Z)) as [H2|H2];
    cbn [length]; try (now rewrite IH).
  - exfalso. apply H2. now apply f_support.
  - exfalso. apply H1. now apply f_support.
Qed.

Lemma px_cols_map (mask : list (list Z)) : px_cols (map (map f) mask) = px_cols mask.
Proof. unfold px_cols. destruct mask; [reflexivity|]. cbn. apply length_map. Qed.

(** The run of [hyper_renorm_ellipse] on a mask whose pixel values are
    changed, but none from or to zero. *)
Lemma px_get_map {St : Type} (mask : list (list Z)) i j (u : St) :
  px_get (map (map f) mask) i j u
  = match px_get mask i j u with
    | (Ok p, t) => (Ok (f p), t)
    | (OutOfRange n, t) => (OutOfRange n, t)
    | (Raised msg, t) => (Raised msg, t)
    end.
Proof.
  unfold px_get. exec_unfold. rewrite lookup_map.
  destruct (mask !! i) as [row|]; [|reflexivity]. cbn [option_map].
  rewrite lookup_map. destruct (row !! j) as [p|]; reflexivity.
Qed.

(** The run of [hyper_renorm_ellipse] on a mask whose pixel values are
    changed, but none from or to zero. *)
Lemma hyper_renorm_ellipse_map (mask : list (list Z)) weights f0 thresh max_iter s :
  hyper_renorm_ellipse feval (map (map f) mask) weights f0 thresh max_iter s
  = hyper_renorm_ellipse feval mask weights f0 thresh max_iter s.
Proof.
  unfold hyper_renorm_ellipse.
  rewrite countNonZero_map_support, px_cols_map.
  unfold px_rows at 1. rewrite length_map. fold (px_rows mask).
  apply exec_bind_cong; [reflexivity|]. intros [] s1.
  apply exec_bind_cong; [|reflexivity].
  apply for_each_ext. intros i t _. apply for_each_ext. intros j u _.
  unfold mbind, exec_mbind, exec_bind. rewrite px_get_map.
  destruct (px_get mask i j u) as [[p|n|msg] u']; try reflexivity.
  destruct (decide (f p <> 0%Z)) as [H1|H1]; destruct (decide (p <> 0%Z)) as [H2|H2];
    try reflexivity.
  - exfalso. apply H2. now apply f_support.
  - exfalso. apply H1. now apply f_support.
Qed.

End Support.

Lemma kept_support p : kept p <> 0%Z <-> p <> 0%Z.
Proof. unfold kept. destruct (decide (p <> 0%Z)); split; intros; try lia; assumption. Qed.

(** X11.  [hyper_renorm_ellipse] reads its mask only to tell zero from
    non-zero: changing the values of the pixels, none from or to zero,
    changes nothing in the run, faults and exceptions included. *)
Theorem hyper_renorm_ellipse_mask_support (f : Z -> Z) (mask : list (list Z))
  weights f0 thresh max_iter s :
  (forall p, f p <> 0%Z <-> p <> 0%Z) ->
  hyper_renorm_ellipse feval (map (map f) mask) weights f0 thresh max_iter s
  = hyper_renorm_ellipse feval mask weights f0 thresh max_iter s.
Proof. intros Hf. now apply hyper_renorm_ellipse_map. Qed.

(** X12.  With three centres and a label in 0..2 for every marked pixel,
    the second fit of [get_ellipses] is the run of [hyper_renorm_ellipse]
    on [annulus_mask] itself: the clustering changes nothing in what is
    fitted. *)
Theorem second_fit_is_fit_on_annulus_mask (mask : list (list Z)) annulus
  c0 c1 c2 c00 c10 c20 labels f0 thresh max_iter s :
  rectangular mask ->
  c0 !! 0%nat = Some c00 -> c1 !! 0%nat = Some c10 -> c2 !! 0%nat = Some c20 ->
  (countNonZero mask <= length labels)%nat ->
  Forall (fun l => 0 <= l < 3)%Z labels ->
  get_ellipses_refit feval mask annulus [c0; c1; c2] labels f0 thresh max_iter s
  = hyper_renorm_ellipse feval mask annulus f0 thresh max_iter s.
Proof.
  intros Hrect H0 H1 H2 Hlen Hlab. unfold get_ellipses_refit.
  rewrite (refined_mask_is_mask mask c0 c1 c2 c00 c10 c20 labels _) by assumption.
  apply hyper_renorm_ellipse_map, kept_support.
Qed.

End HyperRenormSupport.

(** A mask of 1s and the same mask of 2s. *)
Lemma hyper_renorm_ellipse_mask_support_witness :
  (forall p, 2 * p <> 0 <-> p <> 0)%Z
  /\ hyper_renorm_ellipse (fun _ => inr [[1; 0; 1; 0; 0]%R])
       (map (map (fun p => 2 * p)%Z) [[1; 0; 1]%Z]) [[1; 1; 1]%R] 1 1 10 (mkMstate hre_init [])
     = hyper_renorm_ellipse (fun _ => inr [[1; 0; 1; 0; 0]%R])
         [[1; 0; 1]%Z] [[1; 1; 1]%R] 1 1 10 (mkMstate hre_init []).
Proof.
  assert (Hf : forall p, (2 * p <> 0 <-> p <> 0)%Z) by (intros p; lia).
  split; [exact Hf|].
  exact (hyper_renorm_ellipse_mask_support (fun _ => inr [[1; 0; 1; 0; 0]%R])
           (fun p => 2 * p)%Z [[1; 0; 1]%Z] [[1; 1; 1]%R] 1%R 1%R 10%Z
           (mkMstate hre_init []) Hf).
Defined.

(** Three marked pixels, one in each cluster: the second fit is the fit on
    the mask. *)
Lemma second_fit_is_fit_on_annulus_mask_witness :
  get_ellipses_refit (fun _ => inr [[1; 0; 1; 0; 0]%R]) [[1; 1; 1]%Z] [[1; 1; 1]%R]
    [[-1]; [0]; [1]]%R [0; 1; 2]%Z 1 1 10 (mkMstate hre_init [])
  = hyper_renorm_ellipse (fun _ => inr [[1; 0; 1; 0; 0]%R]) [[1; 1; 1]%Z] [[1; 1; 1]%R]
      1 1 10 (mkMstate hre_init []).
Proof.
  assert (Hrect : rectangular [[1; 1; 1]%Z]).
  { intros row Hrow. apply list_elem_of_singleton in Hrow. subst. reflexivity. }
  assert (Hlab : Forall (fun l => 0 <= l < 3)%Z [0; 1; 2]%Z).
  { repeat constructor; lia. }
  exact (second_fit_is_fit_on_annulus_mask (fun _ => inr [[1; 0; 1; 0; 0]%R])
           [[1; 1; 1]%Z] [[1; 1; 1]%R] [-1]%R [0]%R [1]%R (-1)%R 0%R 1%R [0; 1; 2]%Z
           1%R 1%R 10%Z (mkMstate hre_init []) Hrect eq_refl eq_refl eq_refl (le_n 3) Hlab).
Defined.

(** * The distances from the first fit: properties *)

Section DistancesFacts.

Open Scope R_scope.

Variable feval : call -> string + list (list R).

Lemma dfe_pack_step n ms d cs i j :
  (length ms < n)%nat ->
  dfe_pack i j (mkMstate (dfe_packed n ms d) cs)
  = (Ok tt, mkMstate (dfe_packed n (ms ++ [(i, j)]) d) cs).
Proof.
  intros Hlt. unfold dfe_pack, dfe_packed.
  erewrite exec_bind_ok by reflexivity. cbn [vars dfe_x dfe_y dfe_k].
  replace (n - length ms)%nat with (S (n - S (length ms))) by lia. cbn [replicate].
  erewrite exec_bind_ok.
  2:{ unfold vec_set. rewrite decide_True; [reflexivity|].
      rewrite length_app, length_map. cbn. lia. }
  erewrite exec_bind_ok.
  2:{ unfold vec_set. rewrite decide_True; [reflexivity|].
      rewrite length_app, length_map. cbn. lia. }
  unfold modify_vars. cbn [vars calls dfe_k dists].
  rewrite !insert_middle by now rewrite length_map.
  rewrite !map_app, <- !app_assoc, length_app. cbn [map length app fst snd].
  rewrite Nat.add_1_r. reflexivity.
Qed.

(** The packaging loops of [dists_from_ellipse] visit the marked pixels
    row by row. *)
Lemma dfe_packaging_run (mask : list (list Z)) d cs :
  rectangular mask ->
  let n := countNonZero mask in
  for_each (seq 0 (px_rows mask)) (fun i =>
    for_each (seq 0 (px_cols mask)) (fun j =>
      b ← px_get mask i j;
      if decide (b <> 0%Z) then dfe_pack i j else mret tt))
    (mkMstate (dfe_packed n [] d) cs)
  = (Ok tt, mkMstate (dfe_packed n (marks 0 mask) d) cs).
Proof.
  intros Hrect n.
  set (rows := px_rows mask). set (cols := px_cols mask).
  set (body := fun i : nat => for_each _ _).
  destruct (for_each_seq_inv
              (fun y s => s = mkMstate (dfe_packed n (marks 0 (take y mask)) d) cs)
              body rows 0 (mkMstate (dfe_packed n [] d) cs)) as (s' & Hrun & Hs').
  { reflexivity. }
  { intros y t [_ Hy] ->. cbn in Hy.
    destruct (lookup_lt_is_Some_2 mask y Hy) as [row Hrow].
    assert (Hrl : length row = cols) by (apply Hrect; eapply list_elem_of_lookup_2; eauto).
    subst body. cbv beta.
    destruct (for_each_seq_inv
                (fun x s => s = mkMstate (dfe_packed n
                                            (marks 0 (take y mask) ++ marks_row y 0 (take x row))
                                            d) cs)
                (fun j : nat =>
                   b ← px_get mask y j;
                   if decide (b <> 0%Z) then dfe_pack y j else mret tt)
                cols 0 (mkMstate (dfe_packed n (marks 0 (take y mask)) d) cs))
      as (t' & Hin & Ht').
    { cbn [take marks_row]. now rewrite app_nil_r. }
    { intros x u [_ Hx] ->. cbn in Hx.
      assert (Hxl : (x < length row)%nat) by lia.
      destruct (lookup_lt_is_Some_2 row x Hxl) as [p Hp].
      erewrite exec_bind_ok by (unfold px_get; erewrite exec_bind_ok
                                  by (unfold vec_get; rewrite Hrow; reflexivity);
                                unfold vec_get; rewrite Hp; reflexivity).
      rewrite (marks_row_take_S _ _ _ _ Hp).
      destruct (decide (p <> 0%Z)) as [Hnz|Hz].
      - pose proof (marked_pixel_rank mask y x row p Hrow Hp Hnz) as Hrank.
        eexists. split.
        + apply dfe_pack_step.
          rewrite length_app, length_marks, length_marks_row. exact Hrank.
        + now rewrite app_assoc.
      - eexists. split; [reflexivity|]. now rewrite app_nil_r. }
    exists t'. split; [exact Hin|]. rewrite Ht'. change (0 + cols)%nat with cols.
    rewrite <- Hrl, firstn_all, (marks_take_S _ _ _ Hrow). reflexivity. }
  rewrite Hrun, Hs'. change (0 + rows)%nat with rows.
  subst rows. unfold px_rows. now rewrite firstn_all.
Qed.

Lemma dfe_copy_step info i x y k ds cs d :
  info !! i = Some d -> (i < length ds)%nat ->
  dfe_copy info i (mkMstate (mkDfe x y k ds) cs)
  = (Ok tt, mkMstate (mkDfe x y k (<[i := d]> ds)) cs).
Proof.
  intros Hd Hi. unfold dfe_copy.
  erewrite exec_bind_ok by (unfold array_get; rewrite Hd; reflexivity).
  erewrite exec_bind_ok by reflexivity.
  erewrite exec_bind_ok by (unfold vec_set; cbn [vars dists]; rewrite decide_True by exact Hi;
                            reflexivity).
  reflexivity.
Qed.

(** The first [m] rounds of the copy of the reply. *)
Lemma dfe_copy_prefix info n x y k cs m :
  (m <= n)%nat -> (m <= length info)%nat ->
  for_each (seq 0 m) (dfe_copy info) (mkMstate (mkDfe x y k (replicate n 0)) cs)
  = (Ok tt, mkMstate (mkDfe x y k (take m info ++ replicate (n - m) 0)) cs).
Proof.
  induction m as [|m IH]; intros Hn Hl.
  - cbn. now rewrite Nat.sub_0_r.
  - rewrite seq_S, for_each_app. cbn [Nat.add].
    erewrite exec_bind_ok by (apply IH; lia).
    destruct (lookup_lt_is_Some_2 info m ltac:(lia)) as [d Hd].
    cbn [for_each].
    erewrite exec_bind_ok.
    2:{ apply (dfe_copy_step info m x y k _ cs d Hd).
        rewrite length_app, length_take, length_replicate. lia. }
    cbn [mret exec_mret exec_ret].
    replace (n - m)%nat with (S (n - S m)) by lia. cbn [replicate].
    rewrite insert_middle by (rewrite length_take; lia).
    rewrite (take_S_r _ _ _ Hd), <- app_assoc. reflexivity.
Qed.

(** The copy of the reply into [dists]: all of it, or an exception of the
    engine's API at the first index past the reply. *)
Lemma dfe_copy_run info n x y k cs :
  for_each (seq 0 n) (dfe_copy info) (mkMstate (mkDfe x y k (replicate n 0)) cs)
  = if decide (n <= length info)%nat
    then (Ok tt, mkMstate (mkDfe x y k (take n info)) cs)
    else (Raised "matlab::data::InvalidArrayIndexException",
          mkMstate (mkDfe x y k (info ++ replicate (n - length info) 0)) cs).
Proof.
  destruct (decide (n <= length info)%nat) as [Hle|Hgt].
  - rewrite dfe_copy_prefix by lia. rewrite Nat.sub_diag. cbn [replicate].
    now rewrite app_nil_r.
  - replace n with (length info + (n - length info))%nat at 1 by lia.
    rewrite seq_app, for_each_app.
    erewrite exec_bind_ok by (apply dfe_copy_prefix; lia).
    rewrite firstn_all. cbn [Nat.add].
    replace (n - length info)%nat with (S (n - S (length info))) at 1 by lia.
    cbn [seq for_each].
    erewrite exec_bind_raised; [reflexivity|].
    unfold dfe_copy.
    erewrite exec_bind_raised; [reflexivity|].
    unfold array_get. rewrite lookup_ge_None_2 by lia. reflexivity.
Qed.

(** A run of [dists_from_ellipse] on a matrix and five parameters. *)
Lemma dists_from_ellipse_run (mask : list (list Z)) img p0 p1 p2 p3 p4 rest accuracy s :
  rectangular mask ->
  let ms := marks 0 mask in
  let n := countNonZero mask in
  let x := map (fun ij => INR (snd ij)) ms in
  let y := map (fun ij => INR (fst ij)) ms in
  let c := dfe_call n x y p3 p2 p0 p1 p4 accuracy in
  dists_from_ellipse feval mask img (p0 :: p1 :: p2 :: p3 :: p4 :: rest) accuracy s
  = match feval c with
    | inl msg => (Raised msg, mkMstate (mkDfe x y n (dists (vars s))) (calls s ++ [c]))
    | inr outs =>
        let info := default [] (head outs) in
        if decide (n <= length info)%nat
        then (Ok tt, mkMstate (mkDfe x y n (take n info)) (calls s ++ [c]))
        else (Raised "matlab::data::InvalidArrayIndexException",
              mkMstate (mkDfe x y n (info ++ replicate (n - length info) 0))
                       (calls s ++ [c]))
    end.
Proof.
  intros Hrect ms n x y c.
  unfold dists_from_ellipse. destruct s as [v0 cs].
  erewrite exec_bind_ok by reflexivity.
  cbn [vars calls].
  pose proof (dfe_packaging_run mask (dists v0) cs Hrect) as Hpack.
  cbv zeta in Hpack. unfold dfe_packed at 1 in Hpack.
  cbn [map length app] in Hpack. rewrite Nat.sub_0_r in Hpack.
  erewrite exec_bind_ok by exact Hpack.
  erewrite exec_bind_ok by reflexivity.
  do 5 (erewrite exec_bind_ok by reflexivity).
  unfold dfe_packed. cbn [vars dfe_x dfe_y].
  rewrite length_marks, Nat.sub_diag. cbn [replicate]. rewrite !app_nil_r.
  fold ms. fold n. fold x. fold y. fold c.
  destruct (feval c) as [msg|outs] eqn:Hf.
  { erewrite exec_bind_raised by (unfold engine_feval; rewrite Hf; reflexivity).
    reflexivity. }
  erewrite exec_bind_ok by (unfold engine_feval; rewrite Hf; reflexivity).
  erewrite exec_bind_ok by reflexivity.
  cbn [vars calls dfe_x dfe_y dfe_k]. cbv zeta.
  apply dfe_copy_run.
Qed.

(** X13.  On a mask given as a matrix and at least five parameters,
    [dists_from_ellipse] calls the MATLAB routine once, with the column
    and row indices of the marked pixels taken row by row, and with the
    parameters in the order [param[3]], [param[2]], [param[0]], [param[1]],
    [param[4]].  A reply with a value for every marked pixel is copied to
    [dists], one distance per marked pixel; a shorter one ends the copy
    with the exception the engine's API throws. *)
Theorem dists_from_ellipse_one_per_marked_pixel (mask : list (list Z)) img
  p0 p1 p2 p3 p4 rest accuracy s :
  rectangular mask ->
  let ms := marks 0 mask in
  let n := countNonZero mask in
  let c := dfe_call n (map (fun ij => INR (snd ij)) ms) (map (fun ij => INR (fst ij)) ms)
             p3 p2 p0 p1 p4 accuracy in
  let r := dists_from_ellipse feval mask img (p0 :: p1 :: p2 :: p3 :: p4 :: rest) accuracy s in
  calls (snd r) = calls s ++ [c]
  /\ match feval c with
     | inl msg => fst r = Raised msg
     | inr outs =>
         let info := default [] (head outs) in
         if decide (n <= length info)%nat
         then fst r = Ok tt /\ dists (vars (snd r)) = take n info
              /\ length (dists (vars (snd r))) = n
         else fst r = Raised "matlab::data::InvalidArrayIndexException"
     end.
Proof.
  intros Hrect ms n c r. subst r.
  rewrite (dists_from_ellipse_run mask img p0 p1 p2 p3 p4 rest accuracy s Hrect).
  fold ms. fold n. fold c.
  destruct (feval c) as [msg|outs]; [split; reflexivity|].
  cbv zeta. destruct (decide (n <= length (default [] (head outs)))%nat) as [Hle|Hgt].
  - repeat split. cbn. rewrite length_take. lia.
  - split; reflexivity.
Qed.

(** X14.  The vector [hyper_renorm_ellipse] returns has the five entries
    [dists_from_ellipse] reads, as in [get_ellipses]: with it as [param],
    the run on a mask given as a matrix never reads or writes outside a
    vector. *)
Theorem fitted_vector_serves_as_param (mask : list (list Z)) weights f0 thresh max_iter s v
  (annulus_mask : list (list Z)) img accuracy s' :
  fst (hyper_renorm_ellipse feval mask weights f0 thresh max_iter s) = Ok v ->
  rectangular annulus_mask ->
  forall i, fst (dists_from_ellipse feval annulus_mask img v accuracy s') <> OutOfRange i.
Proof.
  intros Hv Hrect i.
  destruct (hyper_renorm_ellipse feval mask weights f0 thresh max_iter s) as [r s1] eqn:E.
  cbn in Hv. subst r.
  pose proof (hyper_renorm_ellipse_length feval _ _ _ _ _ _ _ _ E) as Hlen.
  destruct v as [|p0 [|p1 [|p2 [|p3 [|p4 rest]]]]]; try discriminate Hlen.
  rewrite (dists_from_ellipse_run annulus_mask img p0 p1 p2 p3 p4 rest accuracy s' Hrect).
  cbv zeta. destruct (feval _) as [msg|outs]; [discriminate|].
  destruct (decide _); discriminate.
Qed.

End DistancesFacts.

(** Two marked pixels and a reply of two distances. *)
Lemma dists_from_ellipse_one_per_marked_pixel_witness :
  rectangular [[1; 0; 1]%Z]
  /\ calls (snd (dists_from_ellipse (fun _ => inr [[3; 4]%R]) [[1; 0; 1]%Z] [[9; 9; 9]%R]
                   [10; 20; 30; 40; 50]%R 1 (mkMstate (mkDfe [] [] 0 []) [])))
     = [dfe_call 2 [0; 2]%R [0; 0]%R 40 30 10 20 50 1].
Proof.
  assert (Hrect : rectangular [[1; 0; 1]%Z]).
  { intros row Hrow. apply list_elem_of_singleton in Hrow. subst. reflexivity. }
  split; [exact Hrect|].
  exact (proj1 (dists_from_ellipse_one_per_marked_pixel (fun _ => inr [[3; 4]%R])
                  [[1; 0; 1]%Z] [[9; 9; 9]%R] 10%R 20%R 30%R 40%R 50%R [] 1%R
                  (mkMstate (mkDfe [] [] 0 []) []) Hrect)).
Defined.

(** The five numbers of a fit, used as the parameters of the distances. *)
Lemma fitted_vector_serves_as_param_witness :
  fst (hyper_renorm_ellipse (fun _ => inr [[1; 0; 1; 0; 0]%R])
         [[1%Z]] [[1%R]] 1 1 10 (mkMstate hre_init [])) = Ok [1; 0; 1; 0; 0]%R
  /\ fst (dists_from_ellipse (fun _ => inr [[1; 0; 1; 0; 0]%R]) [[1; 0; 1]%Z] [[9; 9; 9]%R]
            [1; 0; 1; 0; 0]%R 1 (mkMstate (mkDfe [] [] 0 []) [])) <> OutOfRange 0.
Proof.
  assert (Hrect : rectangular [[1; 0; 1]%Z]).
  { intros row Hrow. apply list_elem_of_singleton in Hrow. subst. reflexivity. }
  split; [reflexivity|].
  exact (fitted_vector_serves_as_param (fun _ => inr [[1; 0; 1; 0; 0]%R])
           [[1%Z]] [[1%R]] 1%R 1%R 10%Z (mkMstate hre_init []) [1; 0; 1; 0; 0]%R
           [[1; 0; 1]%Z] [[9; 9; 9]%R] 1%R (mkMstate (mkDfe [] [] 0 []) [])
           eq_refl Hrect 0%nat).
Defined.

(** * The amplitude of the Scharr filtrate: properties *)

Section ScharrFacts.

Open Scope R_scope.

Variable Sobel : list (list R) -> nat -> nat -> list (list R).

Lemma quadrature_take_S gx gy y rx ry :
  gx !! y = Some rx -> gy !! y = Some ry ->
  quadrature (take (S y) gx) (take (S y) gy)
  = quadrature (take y gx) (take y gy) ++ [zip_with amplitude rx ry].
Proof.
  intros Hx Hy. unfold quadrature.
  rewrite (take_S_r _ _ _ Hx), (take_S_r _ _ _ Hy).
  rewrite zip_with_app; [reflexivity|].
  apply lookup_lt_Some in Hx, Hy. rewrite !length_take. lia.
Qed.

Lemma amplitude_take_S (rx ry : list R) x p q :
  rx !! x = Some p -> ry !! x = Some q ->
  zip_with amplitude (take (S x) rx) (take (S x) ry)
  = zip_with amplitude (take x rx) (take x ry) ++ [amplitude p q].
Proof.
  intros Hx Hy.
  rewrite (take_S_r _ _ _ Hx), (take_S_r _ _ _ Hy).
  rewrite zip_with_app; [reflexivity|].
  apply lookup_lt_Some in Hx, Hy. rewrite !length_take. lia.
Qed.

(** The loops of [scharr_amp], started on [gx], replace it pixel by pixel
    by the amplitudes. *)
Lemma scharr_amp_loops (gx gy : list (list R)) rows cols :
  shape_of gx rows cols -> shape_of gy rows cols ->
  for_each (seq 0 rows) (fun i =>
    for_each (seq 0 cols) (fun j =>
      gradx ← get;
      p ← px_get gradx i j;
      q ← px_get gy i j;
      row ← vec_get gradx i;
      row' ← vec_set row j (sqrt (p * p + q * q));
      modify (fun _ => <[i := row']> gradx))) gx
  = (Ok tt, quadrature gx gy).
Proof.
  intros [Hxr Hxc] [Hyr Hyc].
  rewrite Forall_forall in Hxc, Hyc.
  set (body := fun i : nat => for_each _ _).
  destruct (for_each_seq_inv
              (fun y (s : list (list R)) =>
                 s = quadrature (take y gx) (take y gy) ++ drop y gx)
              body rows 0 gx) as (s' & Hrun & Hs').
  { reflexivity. }
  { intros y t [_ Hy] ->. cbn in Hy.
    destruct (lookup_lt_is_Some_2 gx y ltac:(lia)) as [rx Hrx].
    destruct (lookup_lt_is_Some_2 gy y ltac:(lia)) as [ry Hry].
    assert (Hlx : length rx = cols) by (apply Hxc; eapply list_elem_of_lookup_2; eauto).
    assert (Hly : length ry = cols) by (apply Hyc; eapply list_elem_of_lookup_2; eauto).
    assert (Hlq : length (quadrature (take y gx) (take y gy)) = y).
    { unfold quadrature. rewrite length_zip_with, !length_take. lia. }
    subst body. cbv beta.
    destruct (for_each_seq_inv
                (fun x (s : list (list R)) =>
                   s = quadrature (take y gx) (take y gy)
                       ++ (zip_with amplitude (take x rx) (take x ry) ++ drop x rx)
                       :: drop (S y) gx)
                (fun j : nat =>
                   gradx ← get;
                   p ← px_get gradx y j;
                   q ← px_get gy y j;
                   row ← vec_get gradx y;
                   row' ← vec_set row j (sqrt (p * p + q * q));
                   modify (fun _ => <[y := row']> gradx))
                cols 0 (quadrature (take y gx) (take y gy) ++ drop y gx))
      as (t' & Hin & Ht').
    { cbn [take zip_with app]. rewrite drop_0. now rewrite (drop_S _ _ _ Hrx). }
    { intros x u [_ Hx] ->. cbn in Hx.
      destruct (lookup_lt_is_Some_2 rx x ltac:(lia)) as [p Hp].
      destruct (lookup_lt_is_Some_2 ry x ltac:(lia)) as [q Hq].
      assert (Hla : length (zip_with amplitude (take x rx) (take x ry)) = x).
      { rewrite length_zip_with, !length_take. lia. }
      set (pre := quadrature (take y gx) (take y gy)) in *.
      set (cur := zip_with amplitude (take x rx) (take x ry)) in *.
      assert (Hcur : (pre ++ (cur ++ drop x rx) :: drop (S y) gx) !! y
                     = Some (cur ++ drop x rx)).
      { apply list_lookup_middle. now rewrite Hlq. }
      assert (Hpx : (cur ++ drop x rx) !! x = Some p).
      { rewrite lookup_app_r by lia. rewrite Hla, Nat.sub_diag, lookup_drop, Nat.add_0_r.
        exact Hp. }
      erewrite exec_bind_ok by reflexivity.
      erewrite exec_bind_ok by (unfold px_get; erewrite exec_bind_ok
                                  by (unfold vec_get; rewrite Hcur; reflexivity);
                                unfold vec_get; rewrite Hpx; reflexivity).
      erewrite exec_bind_ok by (unfold px_get; erewrite exec_bind_ok
                                  by (unfold vec_get; rewrite Hry; reflexivity);
                                unfold vec_get; rewrite Hq; reflexivity).
      erewrite exec_bind_ok by (unfold vec_get; rewrite Hcur; reflexivity).
      erewrite exec_bind_ok.
      2:{ unfold vec_set. rewrite decide_True; [reflexivity|].
          rewrite length_app, length_drop. lia. }
      eexists. split; [reflexivity|]. cbv beta.
      rewrite insert_middle by now rewrite Hlq.
      rewrite (drop_S _ _ _ Hp).
      rewrite insert_middle by now rewrite Hla.
      rewrite (amplitude_take_S _ _ _ _ _ Hp Hq). fold cur.
      rewrite <- app_assoc. reflexivity. }
    exists t'. split; [exact Hin|]. rewrite Ht'. change (0 + cols)%nat with cols.
    assert (Htx : take cols rx = rx) by (rewrite <- Hlx; apply firstn_all).
    assert (Hty : take cols ry = ry) by (rewrite <- Hly; apply firstn_all).
    assert (Hdx : drop cols rx = []) by (rewrite <- Hlx; apply skipn_all).
    rewrite Htx, Hty, Hdx, app_nil_r.
    rewrite (quadrature_take_S _ _ _ _ _ Hrx Hry), <- app_assoc. reflexivity. }
  rewrite Hrun, Hs'. change (0 + rows)%nat with rows.
  assert (Htx : take rows gx = gx) by (rewrite <- Hxr; apply firstn_all).
  assert (Hty : take rows gy = gy) by (rewrite <- Hyr; apply firstn_all).
  assert (Hdx : drop rows gx = []) by (rewrite <- Hxr; apply skipn_all).
  rewrite Htx, Hty, Hdx, app_nil_r. reflexivity.
Qed.

Lemma quadrature_nonneg gx gy :
  Forall (Forall (fun v => 0 <= v)) (quadrature gx gy).
Proof.
  unfold quadrature. revert gy.
  induction gx as [|rx gx IH]; intros [|ry gy]; cbn; try constructor; [|apply IH].
  revert ry. induction rx as [|p rx IHr]; intros [|q ry]; cbn; constructor;
    [apply sqrt_pos | apply IHr].
Qed.

(** X15.  When the two filtrates have the size of the image, a run of
    [scharr_amp] in which no thread disturbs the row pointers of another
    returns the matrix of the amplitudes [sqrt (p^2 + q^2)] of the pixels
    [p] of the first filtrate and [q] of the second: the loops overwrite
    the first filtrate in place, each pixel being read before it is
    written, and no pixel of the result is negative. *)
Theorem scharr_amp_is_quadrature p_row q_row (img : list (list R)) s :
  undisturbed p_row -> undisturbed q_row ->
  let gx := Sobel img 0 1 in
  let gy := Sobel img 1 0 in
  shape_of gx (px_rows img) (px_cols img) ->
  shape_of gy (px_rows img) (px_cols img) ->
  scharr_amp Sobel p_row q_row img s = (Ok (quadrature gx gy), quadrature gx gy)
  /\ Forall (Forall (fun v => 0 <= v)) (quadrature gx gy).
Proof.
  intros Hp Hq gx gy Hx Hy. split; [|apply quadrature_nonneg].
  unfold scharr_amp.
  erewrite exec_bind_ok by reflexivity.
  erewrite exec_bind_ok; [reflexivity|].
  rewrite <- (scharr_amp_loops gx gy (px_rows img) (px_cols img) Hx Hy).
  apply for_each_ext. intros i t _. apply for_each_ext. intros j u _.
  now rewrite Hp, Hq.
Qed.

End ScharrFacts.

(** A filter that returns its input, on a row of two pixels, run by one
    thread. *)
Lemma scharr_amp_is_quadrature_witness :
  shape_of [[3; 4]%R] 1 2
  /\ scharr_amp (fun img _ _ => img) (fun i _ => i) (fun i _ => i) [[3; 4]%R] []
     = (Ok (quadrature [[3; 4]%R] [[3; 4]%R]), quadrature [[3; 4]%R] [[3; 4]%R]).
Proof.
  assert (Hs : shape_of [[3; 4]%R] 1 2) by (split; [reflexivity | repeat constructor]).
  split; [exact Hs|].
  exact (proj1 (scharr_amp_is_quadrature (fun img _ _ => img) (fun i _ => i) (fun i _ => i)
                  [[3; 4]%R] [] (fun _ _ => eq_refl) (fun _ _ => eq_refl) Hs Hs)).
Defined.

(** * The sums along the rows: properties *)

Section RowSumsFacts.

Open Scope R_scope.

(** X16.  [row_sums] is declared empty and never given a size, so for a
    rotated image with at least one row the loop stops in its first round,
    at [row_sums[0]]: at the first non-zero pixel of row 0 or, if the row
    has none, at the division that follows the row. *)
Theorem row_sums_is_never_sized (rot : list (list R)) s :
  (0 < px_rows rot)%nat ->
  inv_sqr_inciding_sign_row_sums rot s = (OutOfRange 0, mkRs [] 0).
Proof.
  intros Hrows. unfold inv_sqr_inciding_sign_row_sums.
  destruct rot as [|row0 rest]; [cbn in Hrows; lia|].
  erewrite exec_bind_ok by reflexivity.
  erewrite exec_bind_fault; [reflexivity|].
  unfold px_rows. cbn [length seq for_each].
  erewrite exec_bind_fault; [reflexivity|].
  erewrite exec_bind_ok by reflexivity.
  cbn [row_sums num_contrib].
  destruct (for_each_skip_or_stop (seq 0 (px_cols (row0 :: rest)))
              (fun j : nat =>
                 p ← px_get (row0 :: rest) 0 j;
                 if decide (p <> 0) then
                   rs_update 0 (fun s => s + p);;
                   modify (fun v => mkRs (row_sums v) (num_contrib v + 1)%Z)
                 else mret tt)
              (mkRs [] 0) 0%nat) as [Hskip|Hstop].
  { intros j Hj. apply elem_of_seq in Hj as [_ Hj]. cbn in Hj.
    destruct (lookup_lt_is_Some_2 row0 j Hj) as [p Hp].
    erewrite exec_bind_ok by (unfold px_get; erewrite exec_bind_ok by reflexivity;
                              unfold vec_get; rewrite Hp; reflexivity).
    destruct (decide (p <> 0)); [right|left]; reflexivity. }
  - erewrite exec_bind_ok by exact Hskip. reflexivity.
  - erewrite exec_bind_fault by exact Hstop. reflexivity.
Qed.

End RowSumsFacts.

(** One row with a non-zero pixel. *)
Lemma row_sums_is_never_sized_witness :
  (0 < px_rows [[0; 2]%R])%nat
  /\ inv_sqr_inciding_sign_row_sums [[0; 2]%R] (mkRs [1%R] 7) = (OutOfRange 0, mkRs [] 0).
Proof.
  split; [cbn; lia|].
  exact (row_sums_is_never_sized [[0; 2]%R] (mkRs [1%R] 7) ltac:(cbn; lia)).
Defined.

(** * The annular mask: its pixels *)

Section AnnularMaskPixels.

(** The pixel of [annulus_pixels] at row [i] and column [j]. *)
Lemma annulus_pixels_lookup size inner_rad outer_rad val i j :
  (i < Z.to_nat size)%nat -> (j < Z.to_nat size)%nat ->
  annulus_pixels size inner_rad outer_rad val !! i ≫= (.!! j)
  = Some (if annulus_test_Z size inner_rad outer_rad i j then val else 0%Z).
Proof.
  intros Hi Hj. unfold annulus_pixels.
  rewrite lookup_map_seq by exact Hi. cbn [mbind option_bind].
  rewrite lookup_map_seq by exact Hj. now rewrite annulus_test_is_test_Z.
Qed.


(** For an odd size the pixels of the mask are symmetric about the middle
    row, the middle column and the diagonal. *)
Lemma annulus_pixels_symmetric size inner_rad outer_rad val i j :
  Z.odd size = true ->
  let n := Z.to_nat size in
  (i < n)%nat -> (j < n)%nat ->
  let px a b := annulus_pixels size inner_rad outer_rad val !! a ≫= (.!! b) in
  px (n - 1 - i)%nat j = px i j
  /\ px i (n - 1 - j)%nat = px i j
  /\ px j i = px i j.
Proof.
  intros Hodd n Hi Hj px. subst px. cbv beta.
  assert (Hpos : (0 < size)%Z) by lia.
  destruct (odd_size_middle size Hodd Hpos) as [Hq Hn].
  set (h := Z.to_nat (Z.quot size 2)) in *. fold n in Hn.
  rewrite !annulus_pixels_lookup by (fold n; lia).
  unfold annulus_test_Z. cbv zeta. rewrite Hq.
  replace (Z.of_nat (n - 1 - i)) with (2 * Z.of_nat h - Z.of_nat i)%Z by lia.
  replace (Z.of_nat (n - 1 - j)) with (2 * Z.of_nat h - Z.of_nat j)%Z by lia.
  set (x := (Z.of_nat i - Z.of_nat h)%Z). set (y := (Z.of_nat j - Z.of_nat h)%Z).
  replace (2 * Z.of_nat h - Z.of_nat i - Z.of_nat h)%Z with (- x)%Z by (subst x; lia).
  replace (2 * Z.of_nat h - Z.of_nat j - Z.of_nat h)%Z with (- y)%Z by (subst y; lia).
  replace (- x * - x)%Z with (x * x)%Z by ring.
  replace (- y * - y)%Z with (y * y)%Z by ring.
  replace (y * y + x * x)%Z with (x * x + y * y)%Z by ring.
  repeat split.
Qed.

(** X18.  For an odd size and radii up to 2047 in magnitude, the matrix
    the body of [create_annular_mask] ends on in a run with undisturbed
    row pointer is symmetric about its middle row, its middle column and
    its diagonal. *)
Theorem annular_mask_symmetric fl p_row (sigma : store) annulus
  size inner_rad outer_rad val i j :
  float_conversion fl -> undisturbed p_row ->
  (Z.abs inner_rad <= 2047)%Z -> (Z.abs outer_rad <= 2047)%Z ->
  Z.odd size = true ->
  let n := Z.to_nat size in
  (i < n)%nat -> (j < n)%nat ->
  let r := create_annular_mask_body fl p_row annulus size inner_rad outer_rad val sigma in
  exists m,
    fst r = Ok m
    /\ let px a b := Mat_pixels (snd r) m !! a ≫= (.!! b) in
       px (n - 1 - i)%nat j = px i j
       /\ px i (n - 1 - j)%nat = px i j
       /\ px j i = px i j.
Proof.
  intros Hfl Hp Hin Hout Hodd n Hi Hj r.
  destruct (create_annular_mask_body_pixels fl p_row sigma annulus size inner_rad
              outer_rad val Hfl Hp Hin Hout ltac:(lia)) as (m & Hm & _ & _ & Hpx).
  exists m. split; [exact Hm|]. fold r in Hpx. cbv zeta. rewrite Hpx.
  now apply annulus_pixels_symmetric.
Qed.

(** X19.  Radii in the wrong order, or a negative outer radius, give a mask
    with no marked pixel. *)
Theorem annular_mask_empty size inner_rad outer_rad val :
  (outer_rad < inner_rad \/ outer_rad < 0)%Z ->
  countNonZero (annulus_pixels size inner_rad outer_rad val) = 0%nat.
Proof.
  intros Hrad.
  assert (Htest : forall i j, annulus_test size inner_rad outer_rad i j = false).
  { intros i j. rewrite annulus_test_is_test_Z. unfold annulus_test_Z.
    destruct (Z.leb_spec 0 outer_rad) as [Ho|Ho]; [|now rewrite andb_false_r].
    destruct (Z.leb_spec inner_rad 0) as [Hi0|Hi0]; [lia|].
    cbn [orb andb].
    match goal with
    | |- (?p <=? ?d)%Z && (?d <=? ?q)%Z = false =>
        destruct (Z.leb_spec p d); destruct (Z.leb_spec d q); try reflexivity; exfalso; nia
    end. }
  apply INR_eq. unfold annulus_pixels. rewrite countNonZero_map_seq.
  apply rsum_zero. intros i _.
  assert (Hrow : forall n, countNonZero_row
                   (map (fun j => if annulus_test size inner_rad outer_rad i j
                                  then val else 0%Z) (seq 0 n)) = 0%nat).
  { intros n. induction n as [|n IH]; [reflexivity|].
    rewrite seq_S_map, countNonZero_row_app, IH, Htest. reflexivity. }
  now rewrite Hrow.
Qed.

End AnnularMaskPixels.


Lemma annular_mask_symmetric_witness :
  Z.odd 3 = true
  /\ exists m,
       fst (create_annular_mask_body (fun x => x) (fun i _ => i) Mat_empty 3 1 1 1
              (∅ : store)) = Ok m
       /\ Mat_pixels (snd (create_annular_mask_body (fun x => x) (fun i _ => i)
                             Mat_empty 3 1 1 1 (∅ : store))) m
            !! 2%nat ≫= (.!! 1%nat)
          = Mat_pixels (snd (create_annular_mask_body (fun x => x) (fun i _ => i)
                               Mat_empty 3 1 1 1 (∅ : store))) m
              !! 0%nat ≫= (.!! 1%nat).
Proof.
  split; [reflexivity|].
  destruct (annular_mask_symmetric (fun x => x) (fun i _ => i) (∅ : store) Mat_empty
              3 1 1 1 0 1 float_conversion_id (fun _ _ => eq_refl)
              ltac:(lia) ltac:(lia) eq_refl ltac:(cbn; lia) ltac:(cbn; lia))
    as (m & Hm & Hsym & _).
  exists m. split; [exact Hm | exact Hsym].
Defined.

(** Inner radius 2 and outer radius 1 on a mask of size 5. *)
Lemma annular_mask_empty_witness :
  (1 < 2 \/ 1 < 0)%Z /\ countNonZero (annulus_pixels 5 2 1 1) = 0%nat.
Proof.
  assert (H : (1 < 2 \/ 1 < 0)%Z) by (left; lia).
  split; [exact H|].
  exact (annular_mask_empty 5 2 1 1 H).
Defined.

(** * The mask of [get_ellipses] under [get_mask_values] *)

Section EmptyMaskValues.

Open Scope Z_scope.

(** X20.  For a mask without columns, as [annulus_mask] is in
    [get_ellipses] after the call of [create_annular_mask], the rectangles
    of [get_mask_values] have no positive width and no positive height,
    wherever the corner lies: no pixel of the image is selected. *)
Theorem get_mask_values_rects_empty_mask (img mask : Mat) (top_left : Point2i) :
  cols mask = 0%nat ->
  let r := get_mask_values_rects img mask top_left in
  rect_width (fst r) <= 0 /\ rect_height (fst r) <= 0
  /\ rect_width (snd r) <= 0 /\ rect_height (snd r) <= 0.
Proof.
  intros Hm r. subst r.
  unfold get_mask_values_rects. cbv zeta. cbn [fst snd rect_width rect_height].
  rewrite Hm.
  destruct (decide (ix top_left >= 0)) as [Hx0|Hx0];
    destruct (decide (ix top_left + Z.of_nat 0 <= Z.of_nat (cols img))) as [Hx1|Hx1];
    destruct (decide (iy top_left >= 0)) as [Hy0|Hy0];
    destruct (decide (iy top_left + Z.of_nat 0 <= Z.of_nat (cols img))) as [Hy1|Hy1];
    lia.
Qed.

End EmptyMaskValues.

(** The empty matrix as the mask, on an image of 5x5 pixels. *)
Lemma get_mask_values_rects_empty_mask_witness :
  cols Mat_empty = 0%nat
  /\ (rect_width (fst (get_mask_values_rects (mkMat None 5 5) Mat_empty (mkPoint2i 2 2)))
      <= 0)%Z.
Proof.
  split; [reflexivity|].
  exact (proj1 (get_mask_values_rects_empty_mask (mkMat None 5 5) Mat_empty (mkPoint2i 2 2)
                  eq_refl)).
Defined.

(** * The clustering routine: one variable *)

Section WeightedKmeansOneVariable.

Open Scope R_scope.

Variable feval : call -> string + list (list R).

(** X21.  With a single variable, [weighted_kmeans] hands the samples to
    the MATLAB routine as they are, in an array of [n] by 1 with the
    weights beside it; an exception of the routine ends the call, with
    [centers] and [labels] as they were. *)
Theorem weighted_kmeans_engine_exception d weights k s msg :
  let c := fkmeans_call (length d) 1 d k weights in
  feval c = inl msg ->
  weighted_kmeans feval [d] weights k s
  = (Raised msg, mkMstate (mkWk (centers (vars s)) (labels (vars s)) d) (calls s ++ [c])).
Proof.
  intros c Hf. unfold weighted_kmeans. cbn [length].
  destruct (decide (1 > 1)%nat) as [Hgt|_]; [lia|].
  destruct s as [[ce la da] cs].
  exec_unfold. cbv [set_data1D modify_vars get_vars engine_feval]. cbn.
  fold c. rewrite Hf. reflexivity.
Qed.

End WeightedKmeansOneVariable.

(** An engine that always throws. *)
Lemma weighted_kmeans_engine_exception_witness :
  weighted_kmeans (fun _ => inl "fkmeans failed"%string) [[1; 2; 3]%R] [1; 1; 1]%R 3
    (mkMstate (mkWk [] [] []) [])
  = (Raised "fkmeans failed", mkMstate (mkWk [] [] [1; 2; 3]%R)
                                [fkmeans_call 3 1 [1; 2; 3]%R 3 [1; 1; 1]%R]).
Proof.
  exact (weighted_kmeans_engine_exception (fun _ => inl "fkmeans failed"%string)
           [1; 2; 3]%R [1; 1; 1]%R 3%Z (mkMstate (mkWk [] [] []) []) "fkmeans failed"%string
           eq_refl).
Defined.

(** * The angle of the elongation: properties *)

Section IncidingAngleFacts.

Open Scope R_scope.

(** X22.  For a unit vector [dir], the angle by which
    [inv_sqr_inciding_sign] rotates the image has sine [dir[0]] and cosine
    [dir[1]] when [dir[1] > 0], and sine [- dir[0]] and cosine [- dir[1]]
    otherwise: it is measured from the second axis, and it follows [dir]
    up to the sign. *)
Theorem inv_sqr_inciding_sign_rotation_unit (dir0 dir1 : R) :
  dir0 * dir0 + dir1 * dir1 = 1 ->
  let phi := inv_sqr_inciding_sign_rotation dir0 dir1 in
  (dir1 > 0 -> sin phi = dir0 /\ cos phi = dir1)
  /\ (dir1 <= 0 -> sin phi = - dir0 /\ cos phi = - dir1).
Proof.
  intros Hunit phi. subst phi.
  unfold inv_sqr_inciding_sign_rotation, inv_sqr_inciding_sign_angle. cbv zeta.
  rewrite Hunit, Rabs_R1.
  replace (dir0 / 1) with dir0 by field.
  assert (Hr : -1 <= dir0 <= 1) by nra.
  pose proof (sin_asin dir0 Hr) as Hs.
  pose proof (cos_asin dir0 Hr) as Hc.
  assert (Hsq : sqrt (1 - dir0 ²) = Rabs dir1).
  { rewrite <- sqrt_Rsqr_abs. f_equal. unfold Rsqr. lra. }
  rewrite Hsq in Hc.
  split; intros Hd.
  - rewrite decide_True by exact Hd. split; [exact Hs|].
    rewrite Hc. apply Rabs_pos_eq. lra.
  - rewrite decide_False by lra.
    rewrite sin_minus, cos_minus, sin_2PI, cos_2PI, Hs, Hc.
    rewrite Rabs_left1 by exact Hd. split; ring.
Qed.

End IncidingAngleFacts.

(** The unit vector (3/5, -4/5). *)
Lemma inv_sqr_inciding_sign_rotation_unit_witness :
  (3 / 5 * (3 / 5) + - (4 / 5) * - (4 / 5) = 1)%R
  /\ sin (inv_sqr_inciding_sign_rotation (3 / 5) (- (4 / 5))) = (- (3 / 5))%R.
Proof.
  assert (Hu : (3 / 5 * (3 / 5) + - (4 / 5) * - (4 / 5) = 1)%R) by lra.
  split; [exact Hu|].
  exact (proj1 (proj2 (inv_sqr_inciding_sign_rotation_unit (3 / 5) (- (4 / 5)) Hu)
                  ltac:(lra))).
Defined.

(** * Conic to ellipse: the extremal points and the semi-axes *)

Section ConicExtremaFacts.

Open Scope R_scope.

(** The semi-axes and the extremal points recorded for an accepted conic,
    in terms of the recorded angle and centre. *)
Lemma conic_axes_extrema A B C D E F fr :
  4 * A * C - B * B <= 0 ->
  let r := ellipse_points_from_conic [A; B; C; D; E; F] fr in
  let e := el (snd r) in
  let th := angle e in
  let A' := A * cos th * cos th + B * cos th * sin th + C * sin th * sin th in
  let C' := A * sin th * sin th - B * cos th * sin th + C * cos th * cos th in
  let D' := D * cos th + E * sin th in
  let E' := E * cos th - D * sin th in
  let num := -4.0 * F * A' * C' + C' * D' * D' + A' * E' * E' in
  a e = sqrt (num / (4.0 * A' * C' * C'))
  /\ b e = sqrt (num / (4.0 * A' * A' * C'))
  /\ extrema (snd r)
     = [ mkPoint2d 0 0;
         padd (center e) (mkPoint2d (- b e * sin th) (b e * cos th));
         padd (center e) (mkPoint2d (a e * cos th) (a e * sin th));
         padd (center e) (mkPoint2d (b e * sin th) (- b e * cos th)) ].
Proof.
  intros H r. subst r. unfold ellipse_points_from_conic.
  exec_unfold; cbn.
  destruct (decide (4.0 * A * C - B * B > 0)) as [n|_]; [exfalso; lra|].
  cbv [extrema_set set_is_ellipse set_angle set_a set_b set_center new_extrema
       modify get mbind exec_mbind exec_bind vec_set mret exec_mret exec_ret
       el extrema replicate length decide fault].
  cbn. repeat split; reflexivity.
Qed.

(** X23.  On every accepted conic, [extrema[0]] is never written: when the
    run stops, the vector has its 4 entries and the first one still is the
    point (0, 0) it was created with.  For an accepted conic with
    [4AC - B^2 < 0] and [A <> C] whose angle needs no adjustment and whose
    second semi-axis is the square root of a number that is not negative,
    [extrema[1]] and [extrema[3]] are mirror images of one another about
    the recorded centre. *)
Theorem extrema_first_point_never_written A B C D E F fr :
  4 * A * C - B * B <= 0 ->
  let r := ellipse_points_from_conic [A; B; C; D; E; F] fr in
  let c := center (el (snd r)) in
  length (extrema (snd r)) = 4%nat
  /\ extrema (snd r) !! 0%nat = Some (mkPoint2d 0 0)
  /\ (4 * A * C - B * B < 0 -> A <> C -> 0 <= atan (B / (A - C)) ->
      let th := 0.5 * atan (B / (A - C)) in
      let A' := A * cos th * cos th + B * cos th * sin th + C * sin th * sin th in
      let C' := A * sin th * sin th - B * cos th * sin th + C * cos th * cos th in
      let D' := D * cos th + E * sin th in
      let E' := E * cos th - D * sin th in
      let num := -4 * F * A' * C' + C' * D' * D' + A' * E' * E' in
      0 <= num / (4 * A' * A' * C') ->
      exists e1 e3,
        extrema (snd r) !! 1%nat = Some e1 /\ extrema (snd r) !! 3%nat = Some e3
        /\ px e1 + px e3 = 2 * px c /\ py e1 + py e3 = 2 * py c).
Proof.
  intros H r c. subst r c.
  destruct (conic_axes_extrema A B C D E F fr H) as (_ & _ & He). cbv zeta in He.
  rewrite He. split; [reflexivity|]. split; [reflexivity|].
  intros _ _ _ th A' C' D' E' num _.
  do 2 eexists. split; [reflexivity|]. split; [reflexivity|].
  cbn [padd px py]. split; ring.
Qed.

(** X24.  For an accepted conic with [4AC - B^2 < 0] and [A <> C] whose
    angle needs no adjustment, the two recorded semi-axes are never both
    positive: the radicands [num / (4 A' C'^2)] and [num / (4 A'^2 C')]
    have opposite signs, the rotated coefficients [A'] and [C'] having
    opposite signs. *)
Theorem accepted_conic_axes_not_both_positive A B C D E F fr :
  4 * A * C - B * B < 0 -> A <> C -> 0 <= atan (B / (A - C)) ->
  let e := el (snd (ellipse_points_from_conic [A; B; C; D; E; F] fr)) in
  ~ (0 < a e /\ 0 < b e).
Proof.
  intros Hd Hne Hpos e [Ha Hb].
  assert (Hd' : 4 * A * C - B * B <= 0) by lra.
  destruct (conic_axes_extrema A B C D E F fr Hd') as (Hae & Hbe & _). cbv zeta in Hae, Hbe.
  destruct (conic_nonpositive_test A B C D E F fr Hd') as (_ & _ & Hth & _). cbv zeta in Hth.
  rewrite decide_False in Hth by lra.
  fold e in Hae, Hbe, Hth. rewrite Hth in Hae, Hbe.
  pose proof (half_atan_removes_mixed_term A B C Hne) as Hmix. cbv zeta in Hmix.
  set (th := 0.5 * atan (B / (A - C))) in *.
  pose proof (sin2_cos2 th) as Hsc. unfold Rsqr in Hsc.
  set (co := cos th) in *. set (si := sin th) in *.
  set (A' := A * co * co + B * co * si + C * si * si) in *.
  set (C' := A * si * si - B * co * si + C * co * co) in *.
  set (D' := D * co + E * si) in *.
  set (E' := E * co - D * si) in *.
  set (num := -4.0 * F * A' * C' + C' * D' * D' + A' * E' * E') in *.
  assert (HAC : 4 * A' * C' = 4 * A * C - B * B).
  { assert (Hinv : 4 * A' * C' - (2 * (C - A) * co * si + B * (co * co - si * si))
                                 * (2 * (C - A) * co * si + B * (co * co - si * si))
                   = (4 * A * C - B * B) * ((si * si + co * co) * (si * si + co * co))).
    { subst A' C'. ring. }
    rewrite Hmix, Hsc in Hinv. lra. }
  assert (Hneg : A' * C' < 0) by lra.
  assert (HA : A' <> 0) by (intros Hz; rewrite Hz in Hneg; lra).
  assert (HC : C' <> 0) by (intros Hz; rewrite Hz in Hneg; lra).
  assert (Hra : 0 < num / (4.0 * A' * C' * C')).
  { destruct (Rlt_le_dec 0 (num / (4.0 * A' * C' * C'))) as [Hp|Hn]; [exact Hp|].
    rewrite (sqrt_neg_0 _ Hn) in Hae. lra. }
  assert (Hrb : 0 < num / (4.0 * A' * A' * C')).
  { destruct (Rlt_le_dec 0 (num / (4.0 * A' * A' * C'))) as [Hp|Hn]; [exact Hp|].
    rewrite (sqrt_neg_0 _ Hn) in Hbe. lra. }
  assert (Hprod : num / (4.0 * A' * C' * C') * (num / (4.0 * A' * A' * C'))
                  = (num / (4 * A' * C')) * (num / (4 * A' * C')) / (A' * C')).
  { replace 4.0 with 4 by lra. field. split; assumption. }
  assert (Hpp : 0 < num / (4.0 * A' * C' * C') * (num / (4.0 * A' * A' * C')))
    by (apply Rmult_lt_0_compat; assumption).
  rewrite Hprod in Hpp.
  set (q := num / (4 * A' * C')) in *.
  assert (Hq : 0 <= q * q) by nra.
  assert (Hinv : / (A' * C') < 0) by (apply Rinv_lt_0_compat; exact Hneg).
  unfold Rdiv in Hpp at 1. nra.
Qed.

End ConicExtremaFacts.

(** The hyperbola [x^2 - y^2 - 1 = 0]. *)
Lemma extrema_first_point_never_written_witness :
  (4 * 1 * (-1) - 0 * 0 <= 0)%R
  /\ extrema (snd (ellipse_points_from_conic [1; 0; -1; 0; 0; -1]%R frame0)) !! 0%nat
     = Some (mkPoint2d 0 0)
  /\ (exists e1 e3,
        extrema (snd (ellipse_points_from_conic [1; 0; -1; 0; 0; -1]%R frame0)) !! 1%nat
        = Some e1
        /\ extrema (snd (ellipse_points_from_conic [1; 0; -1; 0; 0; -1]%R frame0)) !! 3%nat
           = Some e3
        /\ (px e1 + px e3
            = 2 * px (center (el (snd (ellipse_points_from_conic
                                         [1; 0; -1; 0; 0; -1]%R frame0)))))%R
        /\ (py e1 + py e3
            = 2 * py (center (el (snd (ellipse_points_from_conic
                                         [1; 0; -1; 0; 0; -1]%R frame0)))))%R).
Proof.
  assert (Hd : (4 * 1 * (-1) - 0 * 0 <= 0)%R) by lra.
  assert (Hat : atan (0 / (1 - -1)) = 0%R).
  { replace (0 / (1 - -1))%R with 0%R by field. apply atan_0. }
  destruct (extrema_first_point_never_written 1 0 (-1) 0 0 (-1) frame0 Hd)
    as (_ & H0 & Hmirror).
  split; [exact Hd|]. split; [exact H0|].
  apply Hmirror; [lra | lra | rewrite Hat; lra |].
  rewrite Hat. replace (0.5 * 0)%R with 0%R by lra. rewrite cos_0, sin_0.
  replace ((-4 * -1 * (1 * 1 * 1 + 0 * 1 * 0 + -1 * 0 * 0)
            * (1 * 0 * 0 - 0 * 1 * 0 + -1 * 1 * 1)
            + (1 * 0 * 0 - 0 * 1 * 0 + -1 * 1 * 1) * (0 * 1 + 0 * 0) * (0 * 1 + 0 * 0)
            + (1 * 1 * 1 + 0 * 1 * 0 + -1 * 0 * 0) * (0 * 1 - 0 * 0) * (0 * 1 - 0 * 0))
           / (4 * (1 * 1 * 1 + 0 * 1 * 0 + -1 * 0 * 0) * (1 * 1 * 1 + 0 * 1 * 0 + -1 * 0 * 0)
              * (1 * 0 * 0 - 0 * 1 * 0 + -1 * 1 * 1)))%R
    with 1%R by (field; lra).
  lra.
Defined.

Lemma accepted_conic_axes_not_both_positive_witness :
  (4 * 1 * (-1) - 0 * 0 < 0)%R
  /\ ~ (0 < a (el (snd (ellipse_points_from_conic [1; 0; -1; 0; 0; -1]%R frame0)))
        /\ 0 < b (el (snd (ellipse_points_from_conic [1; 0; -1; 0; 0; -1]%R frame0))))%R.
Proof.
  assert (Hd : (4 * 1 * (-1) - 0 * 0 < 0)%R) by lra.
  assert (Hne : (1 <> -1)%R) by lra.
  assert (Ha : (0 <= atan (0 / (1 - -1)))%R).
  { replace (0 / (1 - -1))%R with 0%R by field. rewrite atan_0. lra. }
  split; [exact Hd|].
  exact (accepted_conic_axes_not_both_positive 1 0 (-1) 0 0 (-1) frame0 Hd Hne Ha).
Defined.
